(** * reddit-viewer: the HTML search engine and the feed extractor

    A shallow embedding of the search engine ([BreadthFirstSearch],
    [DepthFirstSearch] and the search criteria), of the feed parser
    ([RedditParser.Feed] and its helpers), of the feed types and of the feed
    options, and the properties of the specification proved (or refuted) on
    it.

    - A parsed document ([*html.Node] of golang.org/x/net/html) is a rose
      tree; a pointer into it is the node together with the child-index path
      that leads to it from the root of the search.
    - The two search loops are defined by well-founded recursion on the total
      size of the pending work list, and return, besides their result, the
      list of nodes they popped.
    - A Go call has three outcomes: a value, an [error], or a run-time panic. *)

From Equations Require Import Equations.
From Stdlib Require Import List String Ascii ZArith Arith Bool Lia Permutation.
From Stdlib Require Import SpecFloat.
From Stdlib Require Import DecimalString.
Import ListNotations.
Open Scope string_scope.
Open Scope list_scope.

Set Implicit Arguments.

(* ------------------------------------------------------------------------- *)
(** ** Outcomes of a Go call *)
(* ------------------------------------------------------------------------- *)

(** The sentinel errors of the search engine and of the parser, the error
    of [WithSortMethod], an error from outside; [Wrapf msg e] is
    [fmt.Errorf(msg + ": %w", e)]. *)
Inductive Error : Type :=
| ErrSearchFailed
| ErrNotAPost
| ErrPostIsAd
| ErrTitleNotFound
| ErrThumbnailNotFound
| ErrCommentsNotFound
| ErrSortMethodNotRecognized
| ErrExternal (msg : string)
| Wrapf (msg : string) (inner : Error).

(** Run-time panics of the Go runtime that the modelled code can raise. *)
Inductive PanicKind : Type :=
| NilDereference
| IndexOutOfRange (index len : Z).

Inductive Outcome (A : Type) : Type :=
| Ok (a : A)
| Err (e : Error)
| Panic (p : PanicKind).
Arguments Ok {A} a.
Arguments Err {A} e.
Arguments Panic {A} p.

Definition bind {A B} (m : Outcome A) (k : A -> Outcome B) : Outcome B :=
  match m with
  | Ok a => k a
  | Err e => Err e
  | Panic p => Panic p
  end.

Notation "x <- m ;; k" := (bind m (fun x => k))
  (at level 61, m at next level, right associativity).

(** [v, _ := f(...)]: the error is dropped and [v] is what [f] returned with
    it (every such [f] here returns the empty string with its error); a panic
    is not an error and keeps unwinding. *)
Definition ignoreErr (m : Outcome string) : Outcome string :=
  match m with
  | Ok s => Ok s
  | Err _ => Ok ""
  | Panic p => Panic p
  end.

(* ------------------------------------------------------------------------- *)
(** ** Go strings *)
(* ------------------------------------------------------------------------- *)

(** A Go string is a sequence of bytes, as [string] is a sequence of 8-bit
    [ascii]. *)

(** [s[i:j]] for [i <= j <= len(s)]. *)
Definition slice (s : string) (i j : nat) : string := substring i (j - i) s.

(** [strings.HasPrefix]: [len(s) >= len(prefix) && s[:len(prefix)] == prefix]. *)
Definition HasPrefix (s pre : string) : bool :=
  Nat.leb (String.length pre) (String.length s)
  && (slice s 0 (String.length pre) =? pre).

(** [strings.HasSuffix]:
    [len(s) >= len(suffix) && s[len(s)-len(suffix):] == suffix]. *)
Definition HasSuffix (s suf : string) : bool :=
  Nat.leb (String.length suf) (String.length s)
  && (slice s (String.length s - String.length suf) (String.length s) =? suf).

(** [strings.TrimPrefix]. *)
Definition TrimPrefix (s pre : string) : string :=
  if HasPrefix s pre then slice s (String.length pre) (String.length s) else s.

(* ------------------------------------------------------------------------- *)
(** ** The document tree of golang.org/x/net/html *)
(* ------------------------------------------------------------------------- *)

Inductive NodeType : Type :=
| ErrorNode | TextNode | DocumentNode | ElementNode
| CommentNode | DoctypeNode | RawNode.

(** The atoms the program compares tags with; every other tag is [AtomOther]
    (an unknown tag has atom 0 and keeps its name in [Data]). *)
Inductive Atom : Type :=
| AtomA | AtomDiv | AtomHead | AtomImg | AtomLi | AtomUl
| AtomHtml | AtomBody | AtomP | AtomSpan | AtomOther.

Record Attribute : Type := mkAttr {
  Namespace : string;
  Key : string;
  Val : string
}.

(** [FirstChild]/[NextSibling] chains are the list [Children]. *)
#[warnings="-register-all"]
Inductive Node : Type :=
| mkNode (ty : NodeType) (atom : Atom) (data : string)
         (attrs : list Attribute) (children : list Node).

Definition Type_ (n : Node) : NodeType := let 'mkNode ty _ _ _ _ := n in ty.
Definition DataAtom (n : Node) : Atom := let 'mkNode _ a _ _ _ := n in a.
Definition Data (n : Node) : string := let 'mkNode _ _ d _ _ := n in d.
Definition Attr (n : Node) : list Attribute := let 'mkNode _ _ _ a _ := n in a.
Definition Children (n : Node) : list Node := let 'mkNode _ _ _ _ c := n in c.

(** [n.FirstChild]; [None] is the nil pointer. *)
Definition FirstChild (n : Node) : option Node := hd_error (Children n).

Definition NodeType_eqb (a b : NodeType) : bool :=
  match a, b with
  | ErrorNode, ErrorNode | TextNode, TextNode | DocumentNode, DocumentNode
  | ElementNode, ElementNode | CommentNode, CommentNode
  | DoctypeNode, DoctypeNode | RawNode, RawNode => true
  | _, _ => false
  end.

Definition Atom_eqb (a b : Atom) : bool :=
  match a, b with
  | AtomA, AtomA | AtomDiv, AtomDiv | AtomHead, AtomHead | AtomImg, AtomImg
  | AtomLi, AtomLi | AtomUl, AtomUl | AtomHtml, AtomHtml | AtomBody, AtomBody
  | AtomP, AtomP | AtomSpan, AtomSpan | AtomOther, AtomOther => true
  | _, _ => false
  end.

Fixpoint size (n : Node) : nat :=
  let 'mkNode _ _ _ _ cs := n in
  S ((fix sizes (l : list Node) : nat :=
        match l with
        | [] => 0
        | c :: l' => size c + sizes l'
        end) cs).

Definition sizes (l : list Node) : nat := fold_right (fun c k => size c + k) 0 l.

(** The node at a child-index path below [n], if the path exists. *)
Fixpoint node_at (n : Node) (p : list nat) : option Node :=
  match p with
  | [] => Some n
  | i :: p' =>
      match nth_error (Children n) i with
      | Some c => node_at c p'
      | None => None
      end
  end.

(** A pointer to a node: where it is below the root of the search, and the
    node it points to. *)
Record Ptr : Type := mkPtr {
  path : list nat;
  node : Node
}.

Definition rootPtr (root : Node) : Ptr := mkPtr [] root.

(** The children of a node, first to last, as the loop
    [for c := node.FirstChild; c != nil; c = c.NextSibling] meets them. *)
Fixpoint kidsFrom (p : list nat) (i : nat) (cs : list Node) : list Ptr :=
  match cs with
  | [] => []
  | c :: cs' => mkPtr (p ++ [i]) c :: kidsFrom p (S i) cs'
  end.

Definition kids (n : Ptr) : list Ptr := kidsFrom (path n) 0 (Children (node n)).

Definition weight (l : list Ptr) : nat :=
  fold_right (fun n k => size (node n) + k) 0 l.

(* ------------------------------------------------------------------------- *)
(** ** The search engine: criteria *)
(* ------------------------------------------------------------------------- *)

Definition SearchCriteria : Type := Node -> bool.

Definition And (criteria : list SearchCriteria) : SearchCriteria :=
  fun n => forallb (fun c => c n) criteria.

Definition Or (criteria : list SearchCriteria) : SearchCriteria :=
  fun n => existsb (fun c => c n) criteria.

Definition Not (criteria : SearchCriteria) : SearchCriteria :=
  fun n => negb (criteria n).

Definition IsTag (name : Atom) : SearchCriteria :=
  fun n => NodeType_eqb (Type_ n) ElementNode && Atom_eqb (DataAtom n) name.

Definition HasAttribute (attributeKey : string) : SearchCriteria :=
  fun n => existsb (fun a => Key a =? attributeKey) (Attr n).

Definition HasAttributeWithValue (attributeKey attributeValue : string)
  : SearchCriteria :=
  fun n =>
    existsb (fun a => (Key a =? attributeKey) && (Val a =? attributeValue))
            (Attr n).

Definition RecurseAlways : SearchCriteria := fun _ => true.
Definition RecurseNever : SearchCriteria := fun _ => false.

(** [GetAttribute]: the value of the first attribute with that key. *)
Fixpoint getAttr (attrs : list Attribute) (attributeKey : string)
  : string * bool :=
  match attrs with
  | [] => ("", false)
  | a :: rest =>
      if Key a =? attributeKey then (Val a, true) else getAttr rest attributeKey
  end.

Definition GetAttribute (n : Node) (attributeKey : string) : string * bool :=
  getAttr (Attr n) attributeKey.

(* ------------------------------------------------------------------------- *)
(** ** The search engine: the two traversals *)
(* ------------------------------------------------------------------------- *)

(** What a loop leaves behind: the nodes it popped, in order, and the node it
    returned, if any. *)
Definition Run : Type := (list Ptr * option Ptr)%type.

Definition exhausted : Run := ([], None).
Definition found (n : Ptr) : Run := ([n], Some n).
Definition visit (n : Ptr) (r : Run) : Run := (n :: fst r, snd r).

(** [node.Type == html.DocumentNode || recurseIf(node)] *)
Definition expands (recurseIf : SearchCriteria) (n : Node) : bool :=
  NodeType_eqb (Type_ n) DocumentNode || recurseIf n.

(** The nodes the loop appends to its work list after popping [n]. *)
Definition next (recurseIf : SearchCriteria) (n : Ptr) : list Ptr :=
  if expands recurseIf (node n) then kids n else [].

(** [nodes[len(nodes)-1]] and [nodes[:len(nodes)-1]]. *)
Fixpoint pop_back {A} (l : list A) : option (list A * A) :=
  match l with
  | [] => None
  | x :: l' =>
      match pop_back l' with
      | None => Some ([], x)
      | Some (r, y) => Some (x :: r, y)
      end
  end.

Definition inspect {A} (a : A) : {b : A | a = b} := exist _ a eq_refl.

Lemma size_pos n : 0 < size n.
Proof. destruct n; simpl; lia. Qed.

Lemma size_unfold n : size n = S (sizes (Children n)).
Proof.
  destruct n as [ty a d at_ cs]; reflexivity.
Qed.

Lemma weight_app l1 l2 : weight (l1 ++ l2) = weight l1 + weight l2.
Proof. induction l1 as [|x l1 IH]; simpl; [reflexivity | rewrite IH; lia]. Qed.

Lemma weight_kidsFrom p i cs : weight (kidsFrom p i cs) = sizes cs.
Proof.
  revert i; induction cs as [|c cs IH]; intros i; simpl;
    [reflexivity | now rewrite IH].
Qed.

Lemma weight_next recurseIf n : weight (next recurseIf n) < size (node n).
Proof.
  unfold next, kids. rewrite (size_unfold (node n)).
  destruct (expands recurseIf (node n)); [rewrite weight_kidsFrom | simpl]; lia.
Qed.

Lemma pop_back_Some {A} (l r : list A) (x : A) :
  pop_back l = Some (r, x) -> l = r ++ [x].
Proof.
  revert r x; induction l as [|y l IH]; intros r x; simpl; [discriminate |].
  destruct (pop_back l) as [[r' z]|] eqn:E.
  - intros [= <- <-]. now rewrite (IH _ _ eq_refl).
  - intros [= <- <-]. destruct l as [|w l]; [reflexivity |].
    simpl in E. destruct (pop_back l) as [[? ?]|]; discriminate.
Qed.

Lemma pop_back_snoc {A} (r : list A) (x : A) : pop_back (r ++ [x]) = Some (r, x).
Proof. induction r as [|y r IH]; simpl; [reflexivity | now rewrite IH]. Qed.

Lemma pop_back_None {A} (l : list A) : pop_back l = None -> l = [].
Proof.
  destruct l as [|x l]; [reflexivity |]. simpl.
  destruct (pop_back l) as [[? ?]|]; discriminate.
Qed.

(** [BreadthFirstSearch]: the work list is a queue, popped at its front. *)
Equations? bfs_loop (criteria recurseIf : SearchCriteria) (nodes : list Ptr)
  : Run by wf (weight nodes) lt :=
  bfs_loop criteria recurseIf [] := exhausted;
  bfs_loop criteria recurseIf (n :: rest) :=
    if criteria (node n) then found n
    else visit n (bfs_loop criteria recurseIf (rest ++ next recurseIf n)).
Proof.
  rewrite weight_app. pose proof (weight_next recurseIf n). lia.
Qed.

(** [DepthFirstSearch]: the work list is a stack whose top is its last
    element; the children are appended first to last, as in the queue. *)
Equations? dfs_loop (criteria recurseIf : SearchCriteria) (nodes : list Ptr)
  : Run by wf (weight nodes) lt :=
  dfs_loop criteria recurseIf nodes with inspect (pop_back nodes) := {
    | exist _ None _ := exhausted
    | exist _ (Some (rest, n)) _ :=
        if criteria (node n) then found n
        else visit n (dfs_loop criteria recurseIf (rest ++ next recurseIf n)) }.
Proof.
  apply pop_back_Some in e. subst nodes. rewrite !weight_app. simpl.
  pose proof (weight_next recurseIf n). lia.
Qed.

Definition searchResult (r : Run) : Outcome Ptr :=
  match snd r with
  | Some n => Ok n
  | None => Err ErrSearchFailed
  end.

Definition BreadthFirstSearch (root : Node) (criteria recurseIf : SearchCriteria)
  : Outcome Ptr :=
  searchResult (bfs_loop criteria recurseIf [rootPtr root]).

Definition DepthFirstSearch (root : Node) (criteria recurseIf : SearchCriteria)
  : Outcome Ptr :=
  searchResult (dfs_loop criteria recurseIf [rootPtr root]).

(** The nodes a search pops, in the order it pops them. *)
Definition bfsVisited (root : Node) (criteria recurseIf : SearchCriteria)
  : list Ptr :=
  fst (bfs_loop criteria recurseIf [rootPtr root]).

Definition dfsVisited (root : Node) (criteria recurseIf : SearchCriteria)
  : list Ptr :=
  fst (dfs_loop criteria recurseIf [rootPtr root]).

(* ------------------------------------------------------------------------- *)
(** ** regexp.MatchString, on the fragment the program's patterns use *)
(* ------------------------------------------------------------------------- *)

(** The patterns of the parser are ["title.*"], ["thumbnail.*"] and
    [".*comments.*"]: literal bytes, [.] and a postfix [*].  A pattern with
    any other metacharacter is outside this model and is refused, as
    [MatchString] refuses a pattern that does not compile (the caller drops
    the error and reads [matched = false]).  As in Go, [.] matches any
    character but a newline, and the match is not anchored. *)
Inductive ReAtom : Type :=
| ReAny
| ReLit (c : ascii).

Definition ReItem : Type := (ReAtom * bool)%type.

Definition reMeta (c : ascii) : bool :=
  existsb (Ascii.eqb c)
    (list_ascii_of_string "\+*?()|[]{}^$").

Fixpoint reParse (pattern : string) : option (list ReItem) :=
  match pattern with
  | EmptyString => Some []
  | String c p' =>
      if reMeta c then None
      else
        let a := if Ascii.eqb c "." then ReAny else ReLit c in
        match p' with
        | String "*" p'' => option_map (cons (a, true)) (reParse p'')
        | _ => option_map (cons (a, false)) (reParse p')
        end
  end.

Definition reAtomMatches (a : ReAtom) (c : ascii) : bool :=
  match a with
  | ReAny => negb (Ascii.eqb c "010")
  | ReLit d => Ascii.eqb c d
  end.

(** Does a prefix of [s] match [items]? *)
Fixpoint reMatchHere (items : list ReItem) (s : string) {struct items} : bool :=
  match items with
  | [] => true
  | (a, false) :: r =>
      match s with
      | String c s' => reAtomMatches a c && reMatchHere r s'
      | EmptyString => false
      end
  | (a, true) :: r =>
      (fix star (s : string) : bool :=
         reMatchHere r s
         || match s with
            | String c s' => reAtomMatches a c && star s'
            | EmptyString => false
            end) s
  end.

Fixpoint reSearch (items : list ReItem) (s : string) : bool :=
  reMatchHere items s
  || match s with
     | String _ s' => reSearch items s'
     | EmptyString => false
     end.

Definition MatchString (pattern s : string) : bool :=
  match reParse pattern with
  | Some items => reSearch items s
  | None => false
  end.

Definition HasAttributeWithValueRegex (attributeKey attributeRegex : string)
  : SearchCriteria :=
  fun n =>
    existsb (fun a => (Key a =? attributeKey) && MatchString attributeRegex (Val a))
            (Attr n).

(* ------------------------------------------------------------------------- *)
(** ** strconv and time *)
(* ------------------------------------------------------------------------- *)

Definition digitVal (c : ascii) : option Z :=
  let n := nat_of_ascii c in
  if Nat.leb 48 n && Nat.leb n 57 then Some (Z.of_nat (n - 48)) else None.

Fixpoint parseDigits (acc : Z) (s : string) : option Z :=
  match s with
  | EmptyString => Some acc
  | String c s' =>
      match digitVal c with
      | Some d => parseDigits (10 * acc + d) s'
      | None => None
      end
  end.

(** [strconv.ParseInt(s, 10, 64)]; [None] is any error (syntax or range). *)
Definition ParseInt (s : string) : option Z :=
  match s with
  | EmptyString => None
  | String c rest =>
      let neg := Ascii.eqb c "-" in
      let digits := if Ascii.eqb c "+" || neg then rest else s in
      match digits with
      | EmptyString => None
      | _ =>
          match parseDigits 0 digits with
          | None => None
          | Some un =>
              if negb neg && (2 ^ 63 <=? un)%Z then None
              else if neg && (2 ^ 63 <? un)%Z then None
              else Some (if neg then (- un)%Z else un)
          end
      end
  end.

(** [strconv.Atoi] where [int] has 64 bits: its fast path and [ParseInt(s, 10,
    0)] accept the same strings with the same values. *)
Definition Atoi (s : string) : option Z := ParseInt s.

(** [strconv.ParseBool] *)
Definition ParseBool (str : string) : option bool :=
  if existsb (String.eqb str) ["1"; "t"; "T"; "true"; "TRUE"; "True"]
  then Some true
  else if existsb (String.eqb str) ["0"; "f"; "F"; "false"; "FALSE"; "False"]
  then Some false
  else None.

(** A [time.Time] in UTC, as its milliseconds since the Unix epoch.  The zero
    [time.Time] is January 1 of year 1, 00:00:00 UTC, which is Unix second
    -62135596800. *)
Definition Time : Type := Z.
Definition UnixMilli (msec : Z) : Time := msec.
Definition zeroTime : Time := (-62135596800000)%Z.

(* ------------------------------------------------------------------------- *)
(** ** The feed types *)
(* ------------------------------------------------------------------------- *)

Inductive FeedPostType : Type :=
| FeedPostTypeText
| FeedPostTypeLink
| FeedPostTypeImage
| FeedPostTypeVideo
| FeedPostTypeGallery.

(** The field [Type] of the source is [PostType] here. *)
Record FeedPost : Type := mkFeedPost {
  ID : string;
  PostType : FeedPostType;
  Title : string;
  OP : string;
  Subreddit : string;
  Timestamp : Time;
  Score : Z;
  CommentCount : Z;
  ThumbnailLink : string;
  PostLink : string;
  CommentsLink : string;
  IsSpoiler : bool;
  IsNSFW : bool
}.

Record Feed : Type := mkFeed {
  Posts : list FeedPost;
  NextPageLink : string
}.

(* ------------------------------------------------------------------------- *)
(** ** The parser: one post *)
(* ------------------------------------------------------------------------- *)

(** The local variables of [tryParseFeedPost] that its attribute loop fills. *)
Record postVars : Type := mkVars {
  id : string;
  op : string;
  subreddit : string;
  timestamp : Time;
  score : Z;
  commentCount : Z;
  postLink : string;
  isSpoiler : bool;
  isNSFW : bool
}.

(** [var id string; ...; var isNSFW bool]: every variable at its zero value. *)
Definition zeroVars : postVars :=
  mkVars "" "" "" zeroTime 0 0 "" false false.

(** One turn of [for _, attr := range n.Attr { switch attr.Key { ... } }]:
    the variables after it, or the error the function returns from it. *)
Definition attrStep (v : postVars) (attr : Attribute) : Outcome postVars :=
  let 'mkVars i o sr ts sc cc pl sp ns := v in
  let k := Key attr in
  let val := Val attr in
  if k =? "class" then
    if (val =? "clearleft") || (val =? "nav-buttons") then Err ErrNotAPost
    else Ok v
  else if k =? "data-fullname" then Ok (mkVars val o sr ts sc cc pl sp ns)
  else if k =? "data-author" then Ok (mkVars i val sr ts sc cc pl sp ns)
  else if k =? "data-subreddit" then Ok (mkVars i o val ts sc cc pl sp ns)
  else if k =? "data-timestamp" then
    match ParseInt val with
    | None => Ok v
    | Some tsMillis => Ok (mkVars i o sr (UnixMilli tsMillis) sc cc pl sp ns)
    end
  else if k =? "data-score" then
    match Atoi val with
    | None => Ok v
    | Some s => Ok (mkVars i o sr ts s cc pl sp ns)
    end
  else if k =? "data-comments-count" then
    match Atoi val with
    | None => Ok v
    | Some c => Ok (mkVars i o sr ts sc c pl sp ns)
    end
  else if k =? "data-url" then Ok (mkVars i o sr ts sc cc val sp ns)
  else if k =? "data-spoiler" then
    match ParseBool val with
    | None => Ok v
    | Some b => Ok (mkVars i o sr ts sc cc pl b ns)
    end
  else if k =? "data-nsfw" then
    match ParseBool val with
    | None => Ok v
    | Some b => Ok (mkVars i o sr ts sc cc pl sp b)
    end
  else if k =? "data-adserver-impression-id" then Err ErrPostIsAd
  else Ok v.

Fixpoint scanAttrs (v : postVars) (attrs : list Attribute) : Outcome postVars :=
  match attrs with
  | [] => Ok v
  | attr :: rest => v' <- attrStep v attr ;; scanAttrs v' rest
  end.

Definition classifyFeedPost (post : FeedPost) : FeedPostType :=
  if HasPrefix (PostLink post) "/r/" then FeedPostTypeText
  else if HasSuffix (PostLink post) ".jpg" || HasSuffix (PostLink post) ".png"
  then FeedPostTypeImage
  else if HasPrefix (PostLink post) "https://www.reddit.com/gallery/"
  then FeedPostTypeGallery
  else if HasPrefix (PostLink post) "https://v.reddit.com/"
          || HasPrefix (PostLink post) "https://v.redd.it/"
  then FeedPostTypeVideo
  else FeedPostTypeLink.

Definition titleCriteria : SearchCriteria :=
  And [IsTag AtomA; HasAttributeWithValueRegex "class" "title.*"].

Definition findTitle (n : Node) : Outcome string :=
  match DepthFirstSearch n titleCriteria RecurseAlways with
  | Ok titleNode =>
      (* titleNode.FirstChild.Data *)
      match FirstChild (node titleNode) with
      | Some c => Ok (Data c)
      | None => Panic NilDereference
      end
  | Err _ => Err ErrTitleNotFound
  | Panic p => Panic p
  end.

Definition thumbnailCriteria : SearchCriteria :=
  And [IsTag AtomA; HasAttributeWithValueRegex "class" "thumbnail.*"].

Definition imgCriteria : SearchCriteria :=
  And [IsTag AtomImg; HasAttribute "src"].

Definition findThumbnailLink (n : Node) : Outcome string :=
  match BreadthFirstSearch n thumbnailCriteria RecurseAlways with
  | Ok thumbnailNode =>
      match BreadthFirstSearch (node thumbnailNode) imgCriteria RecurseAlways with
      | Ok imgNode =>
          let src := fst (GetAttribute (node imgNode) "src") in
          Ok ("https://" ++ TrimPrefix src "//")%string
      | Err _ => Err ErrThumbnailNotFound
      | Panic p => Panic p
      end
  | Err _ => Err ErrThumbnailNotFound
  | Panic p => Panic p
  end.

Definition firstItemCriteria : SearchCriteria :=
  And [IsTag AtomLi; HasAttributeWithValue "class" "first"].

Definition commentsCriteria : SearchCriteria :=
  And [IsTag AtomA; HasAttributeWithValueRegex "class" ".*comments.*"].

Definition findCommentsLink (n : Node) : Outcome string :=
  match BreadthFirstSearch n (IsTag AtomUl) RecurseAlways with
  | Ok buttonsBar =>
      match BreadthFirstSearch (node buttonsBar) firstItemCriteria RecurseAlways with
      | Ok commentsNode =>
          match BreadthFirstSearch (node commentsNode) commentsCriteria
                  RecurseAlways with
          | Ok commentsLink =>
              match GetAttribute (node commentsLink) "href" with
              | (link, true) => Ok link
              | (_, false) => Err ErrCommentsNotFound
              end
          | Err _ => Err ErrCommentsNotFound
          | Panic p => Panic p
          end
      | Err _ => Err ErrCommentsNotFound
      | Panic p => Panic p
      end
  | Err _ => Err ErrCommentsNotFound
  | Panic p => Panic p
  end.

(** The record built from the variables and the three lookups, its type
    still the placeholder [FeedPostTypeLink]. *)
Definition buildPost (v : postVars) (title thumbnailLink commentsLink : string)
  : FeedPost :=
  mkFeedPost (id v) FeedPostTypeLink title (op v) (subreddit v) (timestamp v)
             (score v) (commentCount v) thumbnailLink (postLink v) commentsLink
             (isSpoiler v) (isNSFW v).

(** [post.Type = t] *)
Definition setType (t : FeedPostType) (p : FeedPost) : FeedPost :=
  mkFeedPost (ID p) t (Title p) (OP p) (Subreddit p) (Timestamp p) (Score p)
             (CommentCount p) (ThumbnailLink p) (PostLink p) (CommentsLink p)
             (IsSpoiler p) (IsNSFW p).

Definition tryParseFeedPost (n : Node) : Outcome FeedPost :=
  v <- scanAttrs zeroVars (Attr n) ;;
  title <- ignoreErr (findTitle n) ;;
  thumbnailLink <- ignoreErr (findThumbnailLink n) ;;
  commentsLink <- ignoreErr (findCommentsLink n) ;;
  let post := buildPost v title thumbnailLink commentsLink in
  Ok (setType (classifyFeedPost post) post).

(* ------------------------------------------------------------------------- *)
(** ** The parser: the page *)
(* ------------------------------------------------------------------------- *)

Definition siteTableCriteria : SearchCriteria :=
  And [IsTag AtomDiv; HasAttributeWithValue "id" "siteTable"].

Definition getSiteTable (n : Node) : Outcome Ptr :=
  match BreadthFirstSearch n siteTableCriteria (Not (IsTag AtomHead)) with
  | Ok siteTable => Ok siteTable
  | Err err => Err (Wrapf "site table not found" err)
  | Panic p => Panic p
  end.

(** [for c := siteTable.FirstChild; c != nil; c = c.NextSibling { ... }] with
    the slice [posts] built so far. *)
Fixpoint collectPosts (posts : list FeedPost) (cs : list Node)
  : Outcome (list FeedPost) :=
  match cs with
  | [] => Ok posts
  | c :: rest =>
      if negb (NodeType_eqb (Type_ c) ElementNode) then collectPosts posts rest
      else
        match tryParseFeedPost c with
        | Ok p => collectPosts (posts ++ [p]) rest
        | Err _ => collectPosts posts rest
        | Panic k => Panic k
        end
  end.

Definition getFeedPosts (doc : Node) : Outcome (list FeedPost) :=
  siteTable <- getSiteTable doc ;;
  collectPosts [] (Children (node siteTable)).

(* ------------------------------------------------------------------------- *)
(** ** The feed options *)
(* ------------------------------------------------------------------------- *)

(** [type SortMethod int]: the constants are 0 to 6, and any other integer is
    a value of the type ([SortMethodFromString] returns [SortMethod(-1)]). *)
Definition SortMethod : Type := Z.
Definition SortMethodDefault : SortMethod := 0%Z.
Definition SortMethodHot : SortMethod := 1%Z.
Definition SortMethodNew : SortMethod := 2%Z.
Definition SortMethodRising : SortMethod := 3%Z.
Definition SortMethodControversial : SortMethod := 4%Z.
Definition SortMethodTop : SortMethod := 5%Z.
Definition SortMethodGilded : SortMethod := 6%Z.

Definition URLString (sm : SortMethod) : string :=
  if (sm =? SortMethodHot)%Z then "hot"
  else if (sm =? SortMethodNew)%Z then "new"
  else if (sm =? SortMethodRising)%Z then "rising"
  else if (sm =? SortMethodControversial)%Z then "controversial"
  else if (sm =? SortMethodTop)%Z then "top"
  else if (sm =? SortMethodGilded)%Z then "gilded"
  else "".

(** [http.Header] *)
Definition Header : Type := list (string * list string).

Record feedOpts : Type := mkOpts {
  BaseURL : string;
  optSubreddit : option string;
  optSortMethod : SortMethod;
  Count : Z;
  LastPostID : option string;
  Headers : Header
}.

(** An option updates the options record or fails. *)
Definition FeedOption : Type := feedOpts -> Outcome feedOpts.

Definition WithBaseURL (baseURL : string) : FeedOption :=
  fun o => Ok (mkOpts baseURL (optSubreddit o) (optSortMethod o) (Count o)
                      (LastPostID o) (Headers o)).

Definition WithSubreddit (sr : string) : FeedOption :=
  fun o => Ok (mkOpts (BaseURL o) (Some sr) (optSortMethod o) (Count o)
                      (LastPostID o) (Headers o)).

Definition WithSortMethod (sortMethod : SortMethod) : FeedOption :=
  fun o =>
    if (sortMethod <? SortMethodDefault)%Z || (SortMethodGilded <? sortMethod)%Z
    then Err ErrSortMethodNotRecognized
    else Ok (mkOpts (BaseURL o) (optSubreddit o) sortMethod (Count o)
                    (LastPostID o) (Headers o)).

Definition WithCount (count : Z) : FeedOption :=
  fun o => Ok (mkOpts (BaseURL o) (optSubreddit o) (optSortMethod o) count
                      (LastPostID o) (Headers o)).

Definition WithLastPostID (lastPostID : string) : FeedOption :=
  fun o => Ok (mkOpts (BaseURL o) (optSubreddit o) (optSortMethod o) (Count o)
                      (Some lastPostID) (Headers o)).

Definition WithHeaders (headers : Header) : FeedOption :=
  fun o => Ok (mkOpts (BaseURL o) (optSubreddit o) (optSortMethod o) (Count o)
                      (LastPostID o) headers).

(* ------------------------------------------------------------------------- *)
(** ** net/url and fmt, as [constructURL] uses them *)
(* ------------------------------------------------------------------------- *)

(** [url.Values], a map from keys to value lists, kept as an association
    list sorted by key: [Encode] writes the keys in sorted order. *)
Definition Values : Type := list (string * list string).

Fixpoint Values_Set (v : Values) (key value : string) : Values :=
  match v with
  | [] => [(key, [value])]
  | (k, vs) :: rest =>
      if key =? k then (key, [value]) :: rest
      else if String.ltb key k then (key, [value]) :: v
      else (k, vs) :: Values_Set rest key value
  end.

Definition inRange (lo hi : nat) (c : ascii) : bool :=
  Nat.leb lo (nat_of_ascii c) && Nat.leb (nat_of_ascii c) hi.

(** [shouldEscape(c, encodeQueryComponent)] *)
Definition shouldEscape (c : ascii) : bool :=
  negb (inRange 97 122 c || inRange 65 90 c || inRange 48 57 c
        || existsb (Ascii.eqb c) (list_ascii_of_string "-_.~")).

Definition upperhex (n : nat) : ascii :=
  nth n (list_ascii_of_string "0123456789ABCDEF") "0"%char.

Fixpoint QueryEscape (s : string) : string :=
  match s with
  | EmptyString => EmptyString
  | String c s' =>
      if Ascii.eqb c " " then String "+" (QueryEscape s')
      else if shouldEscape c then
        String "%" (String (upperhex (nat_of_ascii c / 16))
                      (String (upperhex (nat_of_ascii c mod 16)) (QueryEscape s')))
      else String c (QueryEscape s')
  end.

Definition Values_Encode (v : Values) : string :=
  fold_left
    (fun buf kv =>
       fold_left
         (fun buf value =>
            ((if buf =? "" then "" else buf ++ "&")
               ++ QueryEscape (fst kv) ++ "=" ++ QueryEscape value)%string)
         (snd kv) buf)
    v "".

(** [fmt.Sprintf("%d", n)] *)
Definition sprintd (n : Z) : string := NilZero.string_of_int (Z.to_int n).

Definition constructURL (opts : feedOpts) : string :=
  let getURL := BaseURL opts in
  let getURL :=
    match optSubreddit opts with
    | Some sr => (getURL ++ "/r/" ++ sr)%string
    | None => getURL
    end in
  let values : Values := [] in
  let values :=
    if (optSortMethod opts =? SortMethodDefault)%Z then values
    else Values_Set values "sort" (URLString (optSortMethod opts)) in
  let values :=
    if (Count opts =? 0)%Z then values
    else Values_Set values "count" (sprintd (Count opts)) in
  let values :=
    match LastPostID opts with
    | Some l => Values_Set values "after" l
    | None => values
    end in
  let v := Values_Encode values in
  if v =? "" then getURL else (getURL ++ "/?" ++ v)%string.

(* ------------------------------------------------------------------------- *)
(** ** The parser: [RedditParser.Feed] *)
(* ------------------------------------------------------------------------- *)

(** [s[i]] with the bounds check of the Go runtime. *)
Definition elemAt {A} (s : list A) (i : Z) : Outcome A :=
  if (i <? 0)%Z || (Z.of_nat (List.length s) <=? i)%Z
  then Panic (IndexOutOfRange i (Z.of_nat (List.length s)))
  else
    match nth_error s (Z.to_nat i) with
    | Some a => Ok a
    | None => Panic (IndexOutOfRange i (Z.of_nat (List.length s)))
    end.

Definition defaultOpts : feedOpts :=
  mkOpts "http://old.reddit.com" None SortMethodDefault 0 None [].

Fixpoint applyOptions (opts : feedOpts) (options : list FeedOption)
  : Outcome feedOpts :=
  match options with
  | [] => Ok opts
  | opt :: rest => opts' <- opt opts ;; applyOptions opts' rest
  end.

(** The continuation of [Feed] once the posts are extracted: the next page
    link is built from [posts[len(posts)-1].ID]. *)
Definition nextPage (opts : feedOpts) (posts : list FeedPost) : Outcome Feed :=
  last <- elemAt posts (Z.of_nat (List.length posts) - 1) ;;
  let opts' :=
    mkOpts "" (optSubreddit opts) (optSortMethod opts) (Count opts)
           (Some (ID last)) (Headers opts) in
  Ok (mkFeed posts (constructURL opts')).

Section RedditParser.

(** [rp.getFeedDocument]: the HTTP request and [html.Parse], outside this
    development; a function of the URL and the headers. *)
Variable getFeedDocument : string -> Header -> Outcome Node.

Definition RedditParser_Feed (options : list FeedOption) : Outcome Feed :=
  opts <- applyOptions defaultOpts options ;;
  let getURL := constructURL opts in
  doc <- getFeedDocument getURL (Headers opts) ;;
  posts <- getFeedPosts doc ;;
  nextPage opts posts.

End RedditParser.

(* ------------------------------------------------------------------------- *)
(** ** The search engine: [NthChild] *)
(* ------------------------------------------------------------------------- *)

(** A value, or an error made on the spot by [errors.New] or [fmt.Errorf],
    with its message. *)
Inductive Result (A : Type) : Type :=
| Value (a : A)
| Failure (msg : string).
Arguments Value {A} a.
Arguments Failure {A} msg.

(** [for i := 0; i < n; i++ { c = c.NextSibling; if c == nil { return error } }]
    with [i] turns to go, from the child [c] whose later siblings are
    [rest]. *)
Fixpoint nextSiblings (c : Node) (rest : list Node) (i : nat) {struct i}
  : Result Node :=
  match i with
  | 0 => Value c
  | S i' =>
      match rest with
      | [] => Failure "child index out of bounds"
      | c' :: rest' => nextSiblings c' rest' i'
      end
  end.

(** [NthChild]; the loop makes no turn when [n] is negative. *)
Definition NthChild (n0 : Node) (n : Z) : Result Node :=
  match Children n0 with
  | [] => Failure "child index out of bounds"
  | c :: rest => nextSiblings c rest (Z.to_nat n)
  end.

(* ------------------------------------------------------------------------- *)
(** ** The feed options: [SortMethodFromString] *)
(* ------------------------------------------------------------------------- *)

(** The method and no error, or [SortMethod(-1)] and the error with its
    message. *)
Definition SortMethodFromString (s : string) : SortMethod * option string :=
  if s =? "hot" then (SortMethodHot, None)
  else if s =? "new" then (SortMethodNew, None)
  else if s =? "rising" then (SortMethodRising, None)
  else if s =? "controversial" then (SortMethodControversial, None)
  else if s =? "top" then (SortMethodTop, None)
  else if s =? "gilded" then (SortMethodGilded, None)
  else ((-1)%Z, Some ("'" ++ s ++ "' is not a sort method")%string).

(* ------------------------------------------------------------------------- *)
(** ** The request router: [parseFeedOptions] *)
(* ------------------------------------------------------------------------- *)

(** What [parseFeedOptions] reads of an [*http.Request]: [r.URL.Path], the
    parsed query [r.URL.Query()] and [r.Header]. *)
Record Request : Type := mkRequest {
  reqPath : string;
  reqQuery : Values;
  reqHeader : Header
}.

(** [strings.Split(s, sep)] for a separator of one byte: the pieces of [s]
    between the separators, at least one piece. *)
Fixpoint Split (s : string) (sep : ascii) : list string :=
  match s with
  | EmptyString => [EmptyString]
  | String c s' =>
      if Ascii.eqb c sep then EmptyString :: Split s' sep
      else
        match Split s' sep with
        | piece :: pieces => String c piece :: pieces
        | [] => [String c EmptyString]
        end
  end.

(** [url.Values.Get]: the first value of the key, or the empty string. *)
Fixpoint Values_Get (v : Values) (key : string) : string :=
  match v with
  | [] => ""
  | (k, vs) :: rest =>
      if k =? key then match vs with [] => "" | x :: _ => x end
      else Values_Get rest key
  end.

(** [http.Header.Del], for a key that is in canonical form already, as
    ["Accept-Encoding"] is. *)
Definition Header_Del (h : Header) (key : string) : Header :=
  filter (fun kv => negb (fst kv =? key)) h.

Definition parseFeedOptions (r : Request) : list FeedOption :=
  let options : list FeedOption := [] in
  let pieces := Split (reqPath r) "/" in
  let options :=
    if Nat.leb 3 (List.length pieces) && (nth 1 pieces "" =? "r")
    then options ++ [WithSubreddit (nth 2 pieces "")]
    else options in
  let options :=
    if Nat.ltb 0 (List.length pieces) then
      match SortMethodFromString (nth (List.length pieces - 1) pieces "") with
      | (sm, None) => options ++ [WithSortMethod sm]
      | (_, Some _) => options
      end
    else options in
  let lastPostID := Values_Get (reqQuery r) "after" in
  let options :=
    if lastPostID =? "" then options
    else options ++ [WithLastPostID lastPostID] in
  let headers := Header_Del (reqHeader r) "Accept-Encoding" in
  options ++ [WithHeaders headers].

(* ------------------------------------------------------------------------- *)
(** ** The template helpers *)
(* ------------------------------------------------------------------------- *)

Definition SecondsPerMinute : Z := 60.
Definition SecondsPerHour : Z := 60 * SecondsPerMinute.
Definition SecondsPerDay : Z := 24 * SecondsPerHour.
Definition SecondsPerMonth : Z := 30 * SecondsPerDay.
Definition SecondsPerYear : Z := 365 * SecondsPerDay.

Definition pluralize (s : string) (val : Z) : string :=
  if (val =? 1)%Z then s else (s ++ "s")%string.

(** [fmt.Sprintf("%d %s", interval, unit)] *)
Definition sprintInterval (interval : Z) (unit : string) : string :=
  (sprintd interval ++ " " ++ unit)%string.

(** [float64]: IEEE 754 binary64, 53 bits of precision with exponents up to
    1024, every operation rounded to the nearest value, ties to even. *)
Definition float64 : Type := spec_float.

(** [float64(z)] for an integer [z]. *)
Definition float64_of_int (z : Z) : float64 := binary_normalize 53 1024 z 0 false.

Definition float64_add (x y : float64) : float64 := SFadd 53 1024 x y.
Definition float64_div (x y : float64) : float64 := SFdiv 53 1024 x y.

(** [int(f)], [int] being 64 bits wide: the fraction is discarded.  For a
    value that does not fit, infinities and NaN included, Go leaves the
    result to the implementation; this is the one of amd64. *)
Definition int_of_float64 (f : float64) : Z :=
  match f with
  | S754_zero _ => 0%Z
  | S754_finite s m e =>
      let a := if (0 <=? e)%Z then (Zpos m * 2 ^ e)%Z else (Zpos m / 2 ^ (- e))%Z in
      let v := if s then (- a)%Z else a in
      if (v <? - 2 ^ 63)%Z || (2 ^ 63 - 1 <? v)%Z then (- 2 ^ 63)%Z else v
  | _ => (- 2 ^ 63)%Z
  end.

(** A [time.Duration]: nanoseconds in 64 bits. *)
Definition Duration : Type := Z.
Definition minDuration : Duration := (- 2 ^ 63)%Z.
Definition maxDuration : Duration := (2 ^ 63 - 1)%Z.
Definition Second : Duration := 1000000000%Z.

(** The nanoseconds since the Unix epoch of a [Time]. *)
Definition UnixNano (t : Time) : Z := (t * 1000000)%Z.

(** [t.Sub(u)], for [t] and [u] in nanoseconds since the Unix epoch and
    without monotonic clock readings ([UTC()] strips the one of
    [time.Now()]): the difference, or the largest or the smallest duration
    when the difference does not fit. *)
Definition Time_Sub (t u : Z) : Duration :=
  let d := (t - u)%Z in
  if (d <? minDuration)%Z then minDuration
  else if (maxDuration <? d)%Z then maxDuration
  else d.

(** [d.Seconds()] *)
Definition Duration_Seconds (d : Duration) : float64 :=
  let sec := Z.quot d Second in
  let nsec := Z.rem d Second in
  float64_add (float64_of_int sec)
              (float64_div (float64_of_int nsec) (float64_of_int 1000000000)).

(** [formatTimeSincePost], with [now] the reading of [time.Now()], in
    nanoseconds since the Unix epoch; the division of Go rounds towards
    zero. *)
Definition formatTimeSincePost (now : Z) (timestamp : Time) : string :=
  let seconds :=
    int_of_float64 (Duration_Seconds (Time_Sub now (UnixNano timestamp))) in
  let interval := Z.quot seconds SecondsPerYear in
  if (1 <=? interval)%Z then sprintInterval interval (pluralize "year" interval)
  else
    let interval := Z.quot seconds SecondsPerMonth in
    if (1 <=? interval)%Z then sprintInterval interval (pluralize "month" interval)
    else
      let interval := Z.quot seconds SecondsPerDay in
      if (1 <=? interval)%Z then sprintInterval interval (pluralize "day" interval)
      else
        let interval := Z.quot seconds SecondsPerHour in
        if (1 <=? interval)%Z
        then sprintInterval interval (pluralize "hour" interval)
        else
          let interval := Z.quot seconds SecondsPerMinute in
          if (1 <=? interval)%Z
          then sprintInterval interval (pluralize "minute" interval)
          else sprintInterval interval (pluralize "second" interval).

(* ------------------------------------------------------------------------- *)
(** ** The feed types: names and JSON *)
(* ------------------------------------------------------------------------- *)

(** [FeedPostType.String], on the five constants. *)
Definition FeedPostType_String (f : FeedPostType) : string :=
  match f with
  | FeedPostTypeText => "text"
  | FeedPostTypeLink => "link"
  | FeedPostTypeImage => "image"
  | FeedPostTypeVideo => "video"
  | FeedPostTypeGallery => "gallery"
  end.

Definition typeString (t : FeedPostType) : string := FeedPostType_String t.

(** The double quote. *)
Definition quote : ascii := "034"%char.

(** [MarshalJSON]: the name between double quotes; it returns no error. *)
Definition MarshalJSON (f : FeedPostType) : string :=
  String quote (FeedPostType_String f ++ String quote EmptyString).

Section Json.

(** [json.Unmarshal(data, &s)] for a string [s]: what [s] holds afterwards
    when it returns no error, and [None] when it returns one. *)
Variable jsonUnmarshalString : string -> option string.

(** [UnmarshalJSON]: the type to store, or the error. *)
Definition UnmarshalJSON (data : string) : Result FeedPostType :=
  match jsonUnmarshalString data with
  | None => Failure ("FeedPostType should be a string, got " ++ data)
  | Some s =>
      if s =? "text" then Value FeedPostTypeText
      else if s =? "link" then Value FeedPostTypeLink
      else if s =? "image" then Value FeedPostTypeImage
      else if s =? "video" then Value FeedPostTypeVideo
      else if s =? "gallery" then Value FeedPostTypeGallery
      else Failure (s ++ " does not belong to FeedPostType values")
  end.

End Json.

(* ------------------------------------------------------------------------- *)
(** * The vocabulary of the properties *)
(* ------------------------------------------------------------------------- *)

(** ** Traversals *)

(** One turn of a work-list loop: it takes one node [n] out of the pending
    list [W], leaving [rest]; it returns [n] if [n] matches, and otherwise
    goes on with [rest] followed by the children of [n] that the descend
    policy lets in.  The queue takes [n] at the front of [W], the stack at
    its back. *)
Definition Turn (criteria recurseIf : SearchCriteria)
  (loop : list Ptr -> Run) (W : list Ptr) : Prop :=
  (W = [] /\ loop W = exhausted)
  \/ exists n rest,
      (forall x, In x W <-> x = n \/ In x rest)
      /\ weight W = size (node n) + weight rest
      /\ loop W =
         if criteria (node n) then found n
         else visit n (loop (rest ++ next recurseIf n)).

(** A loop all of whose turns are of that kind. *)
Definition WorklistLoop (criteria recurseIf : SearchCriteria)
  (loop : list Ptr -> Run) : Prop :=
  forall W, Turn criteria recurseIf loop W.

(** [Visit criteria recurseIf w p]: the search that starts with [w] pending
    can come to pop [p]: every node from [w] down to the parent of [p] fails
    the criteria and is expanded. *)
Inductive Visit (criteria recurseIf : SearchCriteria) (w : Ptr) : Ptr -> Prop :=
| visit_start : Visit criteria recurseIf w w
| visit_child p k :
    Visit criteria recurseIf w p ->
    criteria (node p) = false -> In k (next recurseIf p) ->
    Visit criteria recurseIf w k.

(** [Reachable recurseIf root p]: the descend policy lets a traversal from
    [root] come to [p]: every proper ancestor of [p] is the document node or
    satisfies [recurseIf]. *)
Inductive Reachable (recurseIf : SearchCriteria) (root : Node) : Ptr -> Prop :=
| reach_root : Reachable recurseIf root (rootPtr root)
| reach_child p k :
    Reachable recurseIf root p -> In k (next recurseIf p) ->
    Reachable recurseIf root k.

(** The nodes below [n] that the policy lets a traversal come to, [n] first
    and then the subtrees of its children from the last child to the first. *)
Fixpoint dfsOrder (recurseIf : SearchCriteria) (p : list nat) (n : Node)
  {struct n} : list Ptr :=
  mkPtr p n ::
  (let 'mkNode _ _ _ _ children := n in
   if expands recurseIf n then
     (fix below (i : nat) (cs : list Node) {struct cs} : list Ptr :=
        match cs with
        | [] => []
        | c :: cs' => below (S i) cs' ++ dfsOrder recurseIf (p ++ [i]) c
        end) 0 children
   else []).

(** The part of [dfsOrder] below a node at [p]: the subtrees of its children
    [cs], the first of which has index [i], from the last to the first. *)
Fixpoint dfsBelow (recurseIf : SearchCriteria) (p : list nat) (i : nat)
  (cs : list Node) : list Ptr :=
  match cs with
  | [] => []
  | c :: cs' => dfsBelow recurseIf p (S i) cs' ++ dfsOrder recurseIf (p ++ [i]) c
  end.

(** Standard pre-order: [n] first and then the subtrees of its children from
    the first child to the last. *)
Fixpoint preorder (recurseIf : SearchCriteria) (p : list nat) (n : Node)
  {struct n} : list Ptr :=
  mkPtr p n ::
  (let 'mkNode _ _ _ _ children := n in
   if expands recurseIf n then
     (fix below (i : nat) (cs : list Node) {struct cs} : list Ptr :=
        match cs with
        | [] => []
        | c :: cs' => preorder recurseIf (p ++ [i]) c ++ below (S i) cs'
        end) 0 children
   else []).

(** The criteria, on the node a pointer points to. *)
Definition matches (criteria : SearchCriteria) (p : Ptr) : bool :=
  criteria (node p).

(** The nodes of [order] up to its first match, the match included. *)
Fixpoint upToFirst (criteria : SearchCriteria) (order : list Ptr) : list Ptr :=
  match order with
  | [] => []
  | p :: rest =>
      if matches criteria p then [p] else p :: upToFirst criteria rest
  end.

(** The first match of [order], as a search result. *)
Definition firstMatch (criteria : SearchCriteria) (order : list Ptr)
  : Outcome Ptr :=
  match find (matches criteria) order with
  | Some p => Ok p
  | None => Err ErrSearchFailed
  end.

(** [dfsOrder] from a pending node. *)
Definition dfsFrom (recurseIf : SearchCriteria) (w : Ptr) : list Ptr :=
  dfsOrder recurseIf (path w) (node w).

(** [l] lies strictly below [n] in the tree. *)
Definition properDescendant (n l : Ptr) : Prop :=
  exists i t, path l = path n ++ i :: t.

(** No node of the subtree of [n], [n] included, satisfies the criteria. *)
Definition lacks (criteria : SearchCriteria) (n : Node) : Prop :=
  forall q m, node_at n q = Some m -> criteria m = false.

(** [n] holds no comments-link list: somewhere on the way from a list to its
    first item to the comments anchor, there is nothing in [n] to find. *)
Definition noCommentsList (n : Node) : Prop :=
  lacks (IsTag AtomUl) n
  \/ lacks firstItemCriteria n
  \/ lacks commentsCriteria n.

(** Two nodes with the same children look the same to a criteria. *)
Definition alike (criteria : SearchCriteria) (n n' : Node) : Prop :=
  Children n = Children n' /\ criteria n = criteria n'.

(** ** Strings and classification *)

(** [s] is [pre] followed by something; [s] is something followed by [suf]. *)
Definition beginsWith (s pre : string) : Prop := exists r, s = (pre ++ r)%string.
Definition endsWith (s suf : string) : Prop := exists r, s = (r ++ suf)%string.

(** [lit] occurs in [s]. *)
Definition contains (s lit : string) : Prop :=
  exists a b, s = (a ++ lit ++ b)%string.

(** The pattern that matches [lit] literally. *)
Definition literal (lit : string) : list ReItem :=
  map (fun c => (ReLit c, false)) (list_ascii_of_string lit).

(** The rules of the specification, each guarded by the failure of the ones
    before it. *)
Inductive Classifies (url : string) : FeedPostType -> Prop :=
| classify_text :
    beginsWith url "/r/" ->
    Classifies url FeedPostTypeText
| classify_image :
    ~ beginsWith url "/r/" ->
    endsWith url ".jpg" \/ endsWith url ".png" ->
    Classifies url FeedPostTypeImage
| classify_gallery :
    ~ beginsWith url "/r/" ->
    ~ (endsWith url ".jpg" \/ endsWith url ".png") ->
    beginsWith url "https://www.reddit.com/gallery/" ->
    Classifies url FeedPostTypeGallery
| classify_video :
    ~ beginsWith url "/r/" ->
    ~ (endsWith url ".jpg" \/ endsWith url ".png") ->
    ~ beginsWith url "https://www.reddit.com/gallery/" ->
    beginsWith url "https://v.reddit.com/" \/ beginsWith url "https://v.redd.it/" ->
    Classifies url FeedPostTypeVideo
| classify_link :
    ~ beginsWith url "/r/" ->
    ~ (endsWith url ".jpg" \/ endsWith url ".png") ->
    ~ beginsWith url "https://www.reddit.com/gallery/" ->
    ~ (beginsWith url "https://v.reddit.com/" \/ beginsWith url "https://v.redd.it/") ->
    Classifies url FeedPostTypeLink.

(** ** Attributes *)

(** The attributes at which [tryParseFeedPost] gives the child up. *)
Definition skipMarker (a : Attribute) : bool :=
  ((Key a =? "class") && ((Val a =? "clearleft") || (Val a =? "nav-buttons")))
  || (Key a =? "data-adserver-impression-id").

(** The five attributes whose value is parsed. *)
Inductive dataField : Type :=
| FieldTimestamp | FieldScore | FieldCommentCount | FieldSpoiler | FieldNSFW.

Definition fieldKey (f : dataField) : string :=
  match f with
  | FieldTimestamp => "data-timestamp"
  | FieldScore => "data-score"
  | FieldCommentCount => "data-comments-count"
  | FieldSpoiler => "data-spoiler"
  | FieldNSFW => "data-nsfw"
  end.

Definition isSome {A} (o : option A) : bool :=
  match o with Some _ => true | None => false end.

(** Does the value parse as the type of the field? *)
Definition parses (f : dataField) (val : string) : bool :=
  match f with
  | FieldTimestamp => isSome (ParseInt val)
  | FieldScore | FieldCommentCount => isSome (Atoi val)
  | FieldSpoiler | FieldNSFW => isSome (ParseBool val)
  end.

(** The field of the record has the zero value of its type. *)
Definition fieldZero (f : dataField) (p : FeedPost) : Prop :=
  match f with
  | FieldTimestamp => Timestamp p = zeroTime
  | FieldScore => Score p = 0%Z
  | FieldCommentCount => CommentCount p = 0%Z
  | FieldSpoiler => IsSpoiler p = false
  | FieldNSFW => IsNSFW p = false
  end.

(** The two sets of variables agree on the variable of the field. *)
Definition sameVar (f : dataField) (v v' : postVars) : Prop :=
  match f with
  | FieldTimestamp => timestamp v = timestamp v'
  | FieldScore => score v = score v'
  | FieldCommentCount => commentCount v = commentCount v'
  | FieldSpoiler => isSpoiler v = isSpoiler v'
  | FieldNSFW => isNSFW v = isNSFW v'
  end.

(** [n] with another attribute list. *)
Definition withAttr (n : Node) (attrs : list Attribute) : Node :=
  mkNode (Type_ n) (DataAtom n) (Data n) attrs (Children n).

(** ** Documents used as examples *)

(** [<a>...</a>] and a text node. *)
Definition anchor (cs : list Node) : Node := mkNode ElementNode AtomA "a" [] cs.
Definition text (s : string) : Node := mkNode TextNode AtomOther s [] [].

(** [<div><a>first</a><a>second</a></div>] *)
Definition twoAnchors : Node :=
  mkNode ElementNode AtomDiv "div" [] [anchor [text "first"]; anchor [text "second"]].

(** [<html><head><div id="siteTable"><a></a></div></head><body></body></html>]
    under the document node. *)
Definition divInHead : Node :=
  mkNode DocumentNode AtomOther "" []
    [mkNode ElementNode AtomHtml "html" []
       [mkNode ElementNode AtomHead "head" []
          [mkNode ElementNode AtomDiv "div" [mkAttr "" "id" "siteTable"]
             [anchor []]];
        mkNode ElementNode AtomBody "body" [] []]].

(** The [<head>] of [divInHead], where it is in the document. *)
Definition headOfDivInHead : Ptr :=
  mkPtr [0; 0]
    (mkNode ElementNode AtomHead "head" []
       [mkNode ElementNode AtomDiv "div" [mkAttr "" "id" "siteTable"]
          [anchor []]]).

(** An element, its attributes given as pairs of key and value. *)
Definition el (a : Atom) (tag : string) (attrs : list (string * string))
  (cs : list Node) : Node :=
  mkNode ElementNode a tag (map (fun kv => mkAttr "" (fst kv) (snd kv)) attrs) cs.

(** The entry of a post as old.reddit.com renders it, cut down to what is
    read: the title anchor, with the given children, and the buttons bar with
    the comments link. *)
Definition entryOf (title : list Node) : Node :=
  el AtomDiv "div" [("class", "entry unvoted")]
    [el AtomDiv "div" [("class", "top-matter")]
       [el AtomP "p" [("class", "title")]
          [el AtomA "a" [("class", "title may-blank"); ("href", "/x")] title];
        el AtomUl "ul" [("class", "flat-list buttons")]
          [el AtomLi "li" [("class", "first")]
             [el AtomA "a" [("href", "https://old.reddit.com/r/pics/comments/abc/");
                            ("class", "bylink comments may-blank")]
                [text "12 comments"]]]]].

(** The thumbnail anchor of a post, around an image with the given [src]. *)
Definition thumbnailOf (src : string) : Node :=
  el AtomA "a" [("class", "thumbnail invisible-when-pinned"); ("href", "/x")]
    [el AtomImg "img" [("src", src); ("width", "70")] []].

(** A post with every attribute the extractor reads. *)
Definition imagePost : Node :=
  el AtomDiv "div"
    [("class", "thing link"); ("data-fullname", "t3_abc");
     ("data-author", "alice"); ("data-subreddit", "pics");
     ("data-timestamp", "1700000000000"); ("data-score", "-3");
     ("data-comments-count", "12"); ("data-url", "https://example.com/x.png");
     ("data-spoiler", "false"); ("data-nsfw", "true")]
    [thumbnailOf "//b.thumbs.redditmedia.com/x.jpg"; entryOf [text "A picture"]].

(** The record extracted from [imagePost]. *)
Definition imageRecord : FeedPost :=
  mkFeedPost "t3_abc" FeedPostTypeImage "A picture" "alice" "pics"
             (UnixMilli 1700000000000) (-3) 12
             "https://b.thumbs.redditmedia.com/x.jpg" "https://example.com/x.png"
             "https://old.reddit.com/r/pics/comments/abc/" false true.

(** [<div class="thing" data-fullname="t3_bare" data-score="4"><p>text</p></div>] *)
Definition barePost : Node :=
  el AtomDiv "div"
    [("class", "thing"); ("data-fullname", "t3_bare"); ("data-score", "4")]
    [el AtomP "p" [] [text "text"]].

(** [imagePost] with an empty title anchor, [<a class="title may-blank"></a>]. *)
Definition untitledPost : Node :=
  el AtomDiv "div"
    [("class", "thing link"); ("data-fullname", "t3_abc")]
    [thumbnailOf "//b.thumbs.redditmedia.com/x.jpg"; entryOf []].

(** A post with a buttons bar whose first item holds no comments anchor:
    [<div class="thing" data-fullname="t3_list"><ul class="flat-list buttons"><li class="first">share</li></ul></div>] *)
Definition listPost : Node :=
  el AtomDiv "div"
    [("class", "thing"); ("data-fullname", "t3_list")]
    [el AtomUl "ul" [("class", "flat-list buttons")]
       [el AtomLi "li" [("class", "first")] [text "share"]]].

(** A page whose container holds [untitledPost] between two posts. *)
Definition untitledPage : Node :=
  mkNode DocumentNode AtomOther "" []
    [el AtomHtml "html" []
       [el AtomHead "head" [] [];
        el AtomBody "body" []
          [el AtomDiv "div" [("id", "siteTable"); ("class", "sitetable linklisting")]
             [barePost; untitledPost; barePost]]]].

(** A post whose thumbnail image has an absolute [src]. *)
Definition absoluteThumbnailPost : Node :=
  el AtomDiv "div" [("class", "thing link"); ("data-fullname", "t3_abs")]
    [thumbnailOf "http://b.thumbs.redditmedia.com/x.jpg"; entryOf [text "T"]].

(** A page whose container holds only a spacer and an advertisement. *)
Definition emptyPage : Node :=
  mkNode DocumentNode AtomOther "" []
    [el AtomHtml "html" []
       [el AtomHead "head" [] [];
        el AtomBody "body" []
          [el AtomDiv "div" [("id", "siteTable"); ("class", "sitetable linklisting")]
             [el AtomDiv "div" [("class", "clearleft")] [];
              el AtomDiv "div"
                [("class", "thing promoted"); ("data-fullname", "t3_ad");
                 ("data-adserver-impression-id", "1")] []]]]].

(** The page of the scenario of the specification: the container holds a
    spacer and two posts. *)
Definition threeChildren : Node :=
  mkNode DocumentNode AtomOther "" []
    [el AtomHtml "html" []
       [el AtomHead "head" [] [];
        el AtomBody "body" []
          [el AtomDiv "div" [("id", "siteTable")]
             [el AtomDiv "div" [("class", "clearleft")] [];
              el AtomDiv "div"
                [("data-fullname", "t3_abc"); ("data-timestamp", "1700000000000");
                 ("data-url", "https://example.com/x.png")] [];
              el AtomDiv "div"
                [("data-fullname", "t3_def"); ("data-url", "/r/foo/comments/def")]
                []]]]].

(** [<div data-score="7" data-score="seven"></div>] *)
Definition twiceScored : Node :=
  el AtomDiv "div" [("data-score", "7"); ("data-score", "seven")] [].

(** [imagePost] with a score and a spoiler flag that do not parse. *)
Definition garbledPost : Node :=
  el AtomDiv "div"
    [("class", "thing link"); ("data-fullname", "t3_abc");
     ("data-score", "12k"); ("data-url", "https://example.com/x.png");
     ("data-spoiler", "no")]
    [thumbnailOf "//b.thumbs.redditmedia.com/x.jpg"; entryOf [text "A picture"]].

(** ** Level order *)

(** The nodes of [level], then the children the policy lets in of the nodes
    of [level], and so on for [depth] levels. *)
Fixpoint levelOrder (recurseIf : SearchCriteria) (depth : nat) (level : list Ptr)
  : list Ptr :=
  match depth with
  | 0 => []
  | S d => level ++ levelOrder recurseIf d (flat_map (next recurseIf) level)
  end.

(** The nodes [k] levels below those of [level]. *)
Fixpoint descend (recurseIf : SearchCriteria) (k : nat) (level : list Ptr)
  : list Ptr :=
  match k with
  | 0 => level
  | S k' => descend recurseIf k' (flat_map (next recurseIf) level)
  end.

(** The nodes the queue loop pops when nothing matches. *)
Definition bfsAll (recurseIf : SearchCriteria) (W : list Ptr) : list Ptr :=
  fst (bfs_loop (fun _ => false) recurseIf W).

(** The depth of a node below the root of the search. *)
Definition depth (p : Ptr) : nat := List.length (path p).

(** The container of [threeChildren], where it is in the document. *)
Definition containerOfThreeChildren : Ptr :=
  match getSiteTable threeChildren with
  | Ok st => st
  | _ => rootPtr threeChildren
  end.

(** ** What the parser reads *)

(** The value the attribute loop leaves in a variable that starts as [d]:
    that of the last attribute with the key whose value parses. *)
Definition lastParsed {A} (parse : string -> option A) (key : string) (d : A)
  (attrs : list Attribute) : A :=
  fold_left
    (fun acc a =>
       if Key a =? key then
         match parse (Val a) with
         | Some x => x
         | None => acc
         end
       else acc)
    attrs d.

(** The value of the last attribute with the key, empty when there is none. *)
Definition lastValue (key : string) (attrs : list Attribute) : string :=
  lastParsed (fun s => Some s) key "" attrs.

(** The variables [v'] are what the loop makes of [v] over [attrs]. *)
Definition reads (v v' : postVars) (attrs : list Attribute) : Prop :=
  id v' = lastParsed (fun s => Some s) "data-fullname" (id v) attrs
  /\ op v' = lastParsed (fun s => Some s) "data-author" (op v) attrs
  /\ subreddit v' = lastParsed (fun s => Some s) "data-subreddit" (subreddit v) attrs
  /\ postLink v' = lastParsed (fun s => Some s) "data-url" (postLink v) attrs
  /\ timestamp v'
     = lastParsed (fun s => option_map UnixMilli (ParseInt s)) "data-timestamp"
                  (timestamp v) attrs
  /\ score v' = lastParsed Atoi "data-score" (score v) attrs
  /\ commentCount v'
     = lastParsed Atoi "data-comments-count" (commentCount v) attrs
  /\ isSpoiler v' = lastParsed ParseBool "data-spoiler" (isSpoiler v) attrs
  /\ isNSFW v' = lastParsed ParseBool "data-nsfw" (isNSFW v) attrs.

(** The records a child of the container adds to the page. *)
Definition recordsOf (c : Node) : list FeedPost :=
  if NodeType_eqb (Type_ c) ElementNode then
    match tryParseFeedPost c with
    | Ok p => [p]
    | _ => []
    end
  else [].

(** The parameters of the query of [constructURL], in the order they are
    written. *)
Definition queryParams (opts : feedOpts) : list string :=
  (match LastPostID opts with
   | Some l => [("after=" ++ QueryEscape l)%string]
   | None => []
   end)
  ++ (if (Count opts =? 0)%Z then []
      else [("count=" ++ QueryEscape (sprintd (Count opts)))%string])
  ++ (if (optSortMethod opts =? SortMethodDefault)%Z then []
      else [("sort=" ++ QueryEscape (URLString (optSortMethod opts)))%string]).

(** The path of [constructURL]: the base and the subreddit. *)
Definition urlPath (opts : feedOpts) : string :=
  match optSubreddit opts with
  | Some sr => (BaseURL opts ++ "/r/" ++ sr)%string
  | None => BaseURL opts
  end.

(** ** Routes *)

(** The string has no ["/"]. *)
Definition noSlash (s : string) : Prop :=
  forall a b, s <> (a ++ String "/" b)%string.

(** The sort method a path segment names, the default when it names none. *)
Definition sortNamed (s : string) : SortMethod :=
  match SortMethodFromString s with
  | (sm, None) => sm
  | (_, Some _) => SortMethodDefault
  end.

(** ** Units of time *)

(** The seconds [formatTimeSincePost] counts from [timestamp] to [now]: the
    difference as a [Duration], which is cut to the range of 64 bits of
    nanoseconds, read in seconds as a [float64] and cut to a whole number. *)
Definition countedSeconds (now : Z) (timestamp : Time) : Z :=
  int_of_float64 (Duration_Seconds (Time_Sub now (UnixNano timestamp))).





(** A decoder of JSON strings good enough for a name between double quotes:
    it drops the first and the last character. *)
Definition unquote (data : string) : option string :=
  match data with
  | String _ rest =>
      Some (substring 0 (String.length rest - 1) rest)
  | EmptyString => None
  end.

(** ** Pending lists *)

(** One turn of a work-list loop again, now with what is left of the pending
    list counted: [W] is [n] and [rest], in some order. *)
Definition TakesOne (criteria recurseIf : SearchCriteria)
  (loop : list Ptr -> Run) (W : list Ptr) : Prop :=
  (W = [] /\ loop W = exhausted)
  \/ exists n rest,
      Permutation W (n :: rest)
      /\ loop W =
         if criteria (node n) then found n
         else visit n (loop (rest ++ next recurseIf n)).

(** The pending nodes are at different places of the tree, none of them below
    another. *)
Definition separate (W : list Ptr) : Prop :=
  NoDup (map path W)
  /\ forall x y s, In x W -> In y W -> path y = path x ++ s -> s = [].

(** ** Class attributes *)

(** [n] is an [atom] element one of whose [class] attributes contains [lit]. *)
Definition classContains (atom : Atom) (lit : string) (n : Node) : Prop :=
  IsTag atom n = true
  /\ exists a, In a (Attr n) /\ Key a = "class" /\ contains (Val a) lit.

(* ------------------------------------------------------------------------- *)
(** * The search engine *)
(* ------------------------------------------------------------------------- *)

(** ** The loops, one turn at a time *)

Lemma bfs_loop_nil criteria recurseIf : bfs_loop criteria recurseIf [] = exhausted.
Proof. now simp bfs_loop. Qed.

Lemma bfs_loop_cons criteria recurseIf n rest :
  bfs_loop criteria recurseIf (n :: rest) =
  if criteria (node n) then found n
  else visit n (bfs_loop criteria recurseIf (rest ++ next recurseIf n)).
Proof. now simp bfs_loop. Qed.

Lemma dfs_loop_nil criteria recurseIf : dfs_loop criteria recurseIf [] = exhausted.
Proof. now simp dfs_loop. Qed.

Lemma dfs_loop_snoc criteria recurseIf rest n :
  dfs_loop criteria recurseIf (rest ++ [n]) =
  if criteria (node n) then found n
  else visit n (dfs_loop criteria recurseIf (rest ++ next recurseIf n)).
Proof.
  rewrite dfs_loop_equation_1.
  generalize (inspect (pop_back (rest ++ [n]))).
  intros [o e]. pose proof e as E. rewrite pop_back_snoc in E.
  destruct o as [[r x]|]; [| discriminate]. injection E as <- <-.
  simp dfs_loop. reflexivity.
Qed.

(** ** Both loops are work-list loops *)

Section Worklist.

Variables criteria recurseIf : SearchCriteria.

Lemma bfs_worklist :
  WorklistLoop criteria recurseIf (bfs_loop criteria recurseIf).
Proof.
  intros [|n rest]; [left | right].
  - split; [reflexivity | apply bfs_loop_nil].
  - exists n, rest. split; [| split].
    + intros x; simpl; intuition congruence.
    + reflexivity.
    + apply bfs_loop_cons.
Qed.

Lemma dfs_worklist :
  WorklistLoop criteria recurseIf (dfs_loop criteria recurseIf).
Proof.
  intros W. destruct (pop_back W) as [[rest n]|] eqn:E; [right | left].
  - apply pop_back_Some in E. subst W. exists n, rest. split; [| split].
    + intros x. rewrite in_app_iff. simpl. intuition congruence.
    + rewrite weight_app. simpl. lia.
    + apply dfs_loop_snoc.
  - apply pop_back_None in E. subst W.
    split; [reflexivity | apply dfs_loop_nil].
Qed.

Lemma worklist_ind (P : list Ptr -> Prop) :
  (forall W, (forall W', weight W' < weight W -> P W') -> P W) ->
  forall W, P W.
Proof.
  intros step W. remember (weight W) as k eqn:Ek. revert W Ek.
  induction k as [k IH] using lt_wf_ind. intros W ->.
  apply step. intros W' Hlt. exact (IH _ Hlt W' eq_refl).
Qed.

Lemma turn_decreases n rest :
  weight (rest ++ next recurseIf n) < size (node n) + weight rest.
Proof.
  rewrite weight_app. pose proof (weight_next recurseIf n). lia.
Qed.

Lemma Visit_step w k p :
  criteria (node w) = false -> In k (next recurseIf w) -> Visit criteria recurseIf k p ->
  Visit criteria recurseIf w p.
Proof.
  intros Hc Hk Hv. induction Hv as [|p q Hv IH Hcp Hq].
  - eapply visit_child; [apply visit_start | assumption | assumption].
  - eapply visit_child; eassumption.
Qed.

Lemma Visit_inv w p :
  Visit criteria recurseIf w p ->
  p = w \/ (criteria (node w) = false
            /\ exists k, In k (next recurseIf w) /\ Visit criteria recurseIf k p).
Proof.
  intros Hv. induction Hv as [|p q Hv IH Hcp Hq]; [now left | right].
  destruct IH as [-> | [Hc [k [Hk Hkp]]]].
  - split; [assumption |]. exists q. split; [assumption | apply visit_start].
  - split; [assumption |]. exists k. split; [assumption |].
    eapply visit_child; eassumption.
Qed.

Section Loop.

Variable loop : list Ptr -> Run.
Hypothesis loop_turns : WorklistLoop criteria recurseIf loop.

(** Every node the loop pops is one it can come to from a pending node. *)
Lemma popped_Visit W p :
  In p (fst (loop W)) -> exists w, In w W /\ Visit criteria recurseIf w p.
Proof.
  revert p. induction W as [W IH] using worklist_ind. intros p Hp.
  destruct (loop_turns W) as [[-> E] | [n [rest [Hin [Hw E]]]]].
  - rewrite E in Hp. contradiction.
  - rewrite E in Hp. destruct (criteria (node n)) eqn:Hc.
    + destruct Hp as [<- | []]. exists n. split;
        [apply Hin; now left | apply visit_start].
    + destruct Hp as [<- | Hp].
      * exists n. split; [apply Hin; now left | apply visit_start].
      * apply IH in Hp; [| rewrite Hw; apply turn_decreases].
        destruct Hp as [w [Hw' Hv]]. apply in_app_iff in Hw'.
        destruct Hw' as [Hr | Hk].
        -- exists w. split; [apply Hin; now right | assumption].
        -- exists n. split; [apply Hin; now left |].
           eapply Visit_step; eassumption.
Qed.

(** The node the loop returns matches, and is the last one it popped. *)
Lemma returned_matches W p :
  snd (loop W) = Some p ->
  criteria (node p) = true /\ In p (fst (loop W)).
Proof.
  revert p. induction W as [W IH] using worklist_ind. intros p Hp.
  destruct (loop_turns W) as [[-> E] | [n [rest [Hin [Hw E]]]]].
  - rewrite E in Hp. discriminate.
  - rewrite E in *. destruct (criteria (node n)) eqn:Hc.
    + simpl in *. injection Hp as <-. auto.
    + simpl in *. apply IH in Hp; [| rewrite Hw; apply turn_decreases].
      destruct Hp as [Hcp Hp]. auto.
Qed.

(** A loop that returns nothing has popped, and found wanting, every node
    it could come to. *)
Lemma exhausted_none W :
  snd (loop W) = None ->
  forall w p, In w W -> Visit criteria recurseIf w p -> criteria (node p) = false.
Proof.
  induction W as [W IH] using worklist_ind. intros Hnone w p Hw Hv.
  destruct (loop_turns W) as [[-> E] | [n [rest [Hin [Hwt E]]]]];
    [contradiction |].
  rewrite E in Hnone. destruct (criteria (node n)) eqn:Hc;
    [discriminate |]. simpl in Hnone.
  assert (Hlt : weight (rest ++ next recurseIf n) < weight W)
    by (rewrite Hwt; apply turn_decreases).
  apply Hin in Hw. destruct Hw as [-> | Hr].
  - apply Visit_inv in Hv. destruct Hv as [-> | [_ [k [Hk Hkp]]]];
      [assumption |].
    apply (IH _ Hlt Hnone k p); [apply in_app_iff; now right | assumption].
  - apply (IH _ Hlt Hnone w p); [apply in_app_iff; now left | assumption].
Qed.

End Loop.

End Worklist.

(** ** Pointers and paths *)

Lemma In_kidsFrom q j cs k :
  In k (kidsFrom q j cs) <->
  exists i c, nth_error cs i = Some c /\ k = mkPtr (q ++ [j + i]) c.
Proof.
  revert j. induction cs as [|c cs IH]; intros j; simpl.
  - split; [contradiction | intros [[|i] [c [H _]]]; discriminate].
  - rewrite IH. split.
    + intros [<- | [i [c' [Hn ->]]]].
      * exists 0, c. now rewrite Nat.add_0_r.
      * exists (S i), c'. split; [assumption |]. now rewrite Nat.add_succ_r.
    + intros [[|i] [c' [Hn ->]]]; simpl in Hn.
      * injection Hn as <-. left. now rewrite Nat.add_0_r.
      * right. exists i, c'. split; [assumption |]. now rewrite Nat.add_succ_r.
Qed.

Lemma In_kids p k :
  In k (kids p) <->
  exists i c, nth_error (Children (node p)) i = Some c
              /\ k = mkPtr (path p ++ [i]) c.
Proof. unfold kids. now rewrite In_kidsFrom. Qed.

Lemma In_next recurseIf p k :
  In k (next recurseIf p) <->
  expands recurseIf (node p) = true /\ In k (kids p).
Proof.
  unfold next. destruct (expands recurseIf (node p)); simpl; intuition congruence.
Qed.

Lemma node_at_snoc n q i :
  node_at n (q ++ [i]) =
  match node_at n q with
  | Some m => nth_error (Children m) i
  | None => None
  end.
Proof.
  revert n. induction q as [|j q IH]; intros n; simpl.
  - now destruct (nth_error (Children n) i).
  - destruct (nth_error (Children n) j) as [c|]; [apply IH | reflexivity].
Qed.

Section Paths.

Variables criteria recurseIf : SearchCriteria.

Lemma Visit_path w p :
  Visit criteria recurseIf w p ->
  exists s, path p = path w ++ s /\ node_at (node w) s = Some (node p).
Proof.
  intros Hv. induction Hv as [|p k Hv [s [Hs Hn]] Hc Hk].
  - exists []. now rewrite app_nil_r.
  - apply In_next in Hk. destruct Hk as [_ Hk]. apply In_kids in Hk.
    destruct Hk as [i [c [Hi ->]]]. exists (s ++ [i]). simpl. split.
    + now rewrite Hs, app_assoc.
    + now rewrite node_at_snoc, Hn.
Qed.

(** Every proper ancestor of a node the search can come to fails the
    criteria and is expanded. *)
Lemma Visit_ancestor w p :
  Visit criteria recurseIf w p ->
  forall q i t, path p = path w ++ q ++ i :: t ->
  exists m, node_at (node w) q = Some m
            /\ criteria m = false /\ expands recurseIf m = true.
Proof.
  intros Hv. induction Hv as [|p k Hv IH Hc Hk]; intros q i t Hp.
  - exfalso. apply (f_equal (@List.length nat)) in Hp.
    rewrite !length_app in Hp. simpl in Hp. lia.
  - destruct (Visit_path Hv) as [s [Hs Hn]].
    apply In_next in Hk. destruct Hk as [He Hk]. apply In_kids in Hk.
    destruct Hk as [j [c [Hj ->]]]. simpl in Hp.
    rewrite Hs, <- app_assoc in Hp. apply app_inv_head in Hp.
    destruct t as [|x t'] using rev_ind.
    + apply app_inj_tail in Hp. destruct Hp as [-> ->].
      exists (node p). auto.
    + clear IHt'. change (q ++ i :: t' ++ [x]) with (q ++ (i :: t') ++ [x]) in Hp.
      rewrite app_assoc in Hp. apply app_inj_tail in Hp.
      destruct Hp as [-> ->]. now apply (IH q i t').
Qed.

End Paths.

Lemma Visit_Reachable criteria recurseIf root p :
  Visit criteria recurseIf (rootPtr root) p -> Reachable recurseIf root p.
Proof.
  intros Hv. induction Hv as [|p k Hv IH Hc Hk];
    [apply reach_root | eapply reach_child; eassumption].
Qed.

Lemma Reachable_Visit criteria recurseIf root p :
  (forall q, Visit criteria recurseIf (rootPtr root) q -> criteria (node q) = false) ->
  Reachable recurseIf root p -> Visit criteria recurseIf (rootPtr root) p.
Proof.
  intros Hall Hr. induction Hr as [|p k Hr IH Hk]; [apply visit_start |].
  eapply visit_child; [exact IH | now apply Hall | assumption].
Qed.

Lemma Reachable_node_at recurseIf root p :
  Reachable recurseIf root p -> node_at root (path p) = Some (node p).
Proof.
  intros Hr.
  assert (Hv : Visit (fun _ => false) recurseIf (rootPtr root) p).
  { apply Reachable_Visit; [reflexivity | assumption]. }
  destruct (Visit_path Hv) as [s [Hs Hn]]. simpl in *. now rewrite Hs.
Qed.

(** A search either fails, and then no reachable node matches; or returns a
    matching node that it popped and that the policy lets it come to. *)
Lemma search_cases criteria recurseIf loop root :
  WorklistLoop criteria recurseIf loop ->
  (searchResult (loop [rootPtr root]) = Err ErrSearchFailed
   /\ forall p, Reachable recurseIf root p -> criteria (node p) = false)
  \/ (exists p, searchResult (loop [rootPtr root]) = Ok p
                /\ criteria (node p) = true
                /\ In p (fst (loop [rootPtr root]))
                /\ Visit criteria recurseIf (rootPtr root) p).
Proof.
  intros HL. unfold searchResult.
  destruct (snd (loop [rootPtr root])) as [p|] eqn:E; [right | left].
  - destruct (returned_matches HL _ E) as [Hc Hp]. exists p.
    repeat split; try assumption.
    destruct (popped_Visit HL _ _ Hp) as [w [[<- | []] Hv]]. exact Hv.
  - split; [reflexivity |]. intros p Hr.
    assert (Hall : forall q, Visit criteria recurseIf (rootPtr root) q ->
                             criteria (node q) = false).
    { intros q Hq. eapply (exhausted_none HL); [exact E | now left | exact Hq]. }
    apply Hall. now apply Reachable_Visit.
Qed.

Lemma search_fails_without_match criteria recurseIf loop root :
  WorklistLoop criteria recurseIf loop ->
  (forall q m, node_at root q = Some m -> criteria m = false) ->
  searchResult (loop [rootPtr root]) = Err ErrSearchFailed.
Proof.
  intros HL Hnone.
  destruct (search_cases root HL) as [[E _] | [p [_ [Hc [_ Hv]]]]]; [exact E |].
  apply Visit_Reachable, Reachable_node_at in Hv.
  rewrite (Hnone _ _ Hv) in Hc. discriminate.
Qed.

(** ** The order of the depth-first search *)

Lemma dfsOrder_unfold recurseIf p n :
  dfsOrder recurseIf p n =
  mkPtr p n ::
  (if expands recurseIf n then dfsBelow recurseIf p 0 (Children n) else []).
Proof.
  destruct n as [ty a d at_ cs]. simpl. f_equal.
  destruct (expands recurseIf (mkNode ty a d at_ cs)); [| reflexivity].
  generalize 0. induction cs as [|c cs IH]; intros i; simpl;
    [reflexivity | now rewrite IH].
Qed.

Lemma dfsBelow_kids recurseIf q i cs :
  flat_map (dfsFrom recurseIf) (rev (kidsFrom q i cs)) = dfsBelow recurseIf q i cs.
Proof.
  revert i. induction cs as [|c cs IH]; intros i; simpl; [reflexivity |].
  rewrite flat_map_app, IH. simpl. now rewrite app_nil_r.
Qed.

Lemma dfsFrom_unfold recurseIf n :
  dfsFrom recurseIf n = n :: flat_map (dfsFrom recurseIf) (rev (next recurseIf n)).
Proof.
  unfold dfsFrom at 1. rewrite dfsOrder_unfold. destruct n as [q m]. simpl.
  f_equal. unfold next, kids. simpl.
  destruct (expands recurseIf m); [now rewrite dfsBelow_kids | reflexivity].
Qed.

(** The stack loop pops the nodes in the order [dfsOrder] lists them, the top
    of the stack first, and stops at the first match. *)
Lemma dfs_loop_order criteria recurseIf W :
  dfs_loop criteria recurseIf W =
  (upToFirst criteria (flat_map (dfsFrom recurseIf) (rev W)),
   find (matches criteria) (flat_map (dfsFrom recurseIf) (rev W))).
Proof.
  induction W as [W IH] using worklist_ind.
  destruct W as [|x W'] using rev_ind; [now rewrite dfs_loop_nil |].
  clear IHW'. rename W' into rest, x into n.
  rewrite dfs_loop_snoc, rev_app_distr. simpl.
  rewrite (dfsFrom_unfold recurseIf n). simpl.
  unfold matches at 1 2. destruct (criteria (node n)); [reflexivity |].
  rewrite IH.
  - unfold visit. simpl. now rewrite rev_app_distr, flat_map_app.
  - rewrite !weight_app. simpl. pose proof (weight_next recurseIf n). lia.
Qed.

(* ------------------------------------------------------------------------- *)
(** * Properties of the search engine *)
(* ------------------------------------------------------------------------- *)

(** C3, as stated, fails: in [<div><a>first</a><a>second</a></div>] both
    anchors match [IsTag(atom.A)]; the first in pre-order is the first child,
    and [DepthFirstSearch] returns the second child. *)
Lemma dfs_returns_last_sibling :
  DepthFirstSearch twoAnchors (IsTag AtomA) RecurseAlways
  = Ok (mkPtr [1] (anchor [text "second"]))
  /\ firstMatch (IsTag AtomA) (preorder RecurseAlways [] twoAnchors)
     = Ok (mkPtr [0] (anchor [text "first"]))
  /\ DepthFirstSearch twoAnchors (IsTag AtomA) RecurseAlways
     <> firstMatch (IsTag AtomA) (preorder RecurseAlways [] twoAnchors).
Proof.
  assert (E : DepthFirstSearch twoAnchors (IsTag AtomA) RecurseAlways
              = Ok (mkPtr [1] (anchor [text "second"]))) by reflexivity.
  split; [exact E |]. split; [reflexivity |]. rewrite E. discriminate.
Qed.

(** C3, amended: [DepthFirstSearch] pops a node, then the subtree of its last
    child, and so on back to the subtree of its first child: it visits the
    nodes in the order [dfsOrder] (pre-order with the children taken from
    last to first), up to the first match in that order, which it returns;
    it fails when that order has no match. *)
Theorem dfs_visits_last_child_first root criteria recurseIf :
  dfsVisited root criteria recurseIf
  = upToFirst criteria (dfsOrder recurseIf [] root)
  /\ DepthFirstSearch root criteria recurseIf
     = firstMatch criteria (dfsOrder recurseIf [] root).
Proof.
  unfold dfsVisited, DepthFirstSearch, searchResult, firstMatch.
  rewrite dfs_loop_order. simpl. rewrite app_nil_r. split; reflexivity.
Qed.

Lemma pruned_below criteria recurseIf root n l :
  recurseIf (node n) = false ->
  Type_ (node n) <> DocumentNode ->
  properDescendant n l ->
  Visit criteria recurseIf (rootPtr root) n ->
  ~ Visit criteria recurseIf (rootPtr root) l.
Proof.
  intros Hr Hd [i [t Hl]] Hn Hv.
  destruct (Visit_ancestor Hv (path n) i t Hl) as [m [Hm [_ He]]].
  destruct (Visit_path Hn) as [s [Hs Hns]]. simpl in *. subst s.
  rewrite Hns in Hm. injection Hm as <-.
  unfold expands in He. rewrite Hr, orb_false_r in He.
  destruct (Type_ (node n)); try discriminate. now apply Hd.
Qed.

Lemma loop_prunes criteria recurseIf loop root n l :
  WorklistLoop criteria recurseIf loop ->
  recurseIf (node n) = false ->
  Type_ (node n) <> DocumentNode ->
  properDescendant n l ->
  In n (fst (loop [rootPtr root])) ->
  ~ In l (fst (loop [rootPtr root]))
  /\ searchResult (loop [rootPtr root]) <> Ok l.
Proof.
  intros HL Hr Hd Hl Hn.
  assert (Hvis : forall x, In x (fst (loop [rootPtr root])) ->
                           Visit criteria recurseIf (rootPtr root) x).
  { intros x Hx. destruct (popped_Visit HL _ _ Hx) as [w [[<- | []] Hv]].
    exact Hv. }
  assert (Hnot : ~ In l (fst (loop [rootPtr root]))).
  { intros Hin. exact (pruned_below Hr Hd Hl (Hvis _ Hn) (Hvis _ Hin)). }
  split; [exact Hnot |]. unfold searchResult.
  destruct (snd (loop [rootPtr root])) as [p|] eqn:E; [| discriminate].
  intros [= ->]. apply Hnot. now apply (returned_matches HL _ E).
Qed.

(** C4: a node that a search visits, that fails both the match and the
    descend predicate and is not the document node, hides everything below
    it: no proper descendant of it is visited or returned, by either
    search. *)
Theorem pruning_law root criteria recurseIf n l :
  recurseIf (node n) = false ->
  criteria (node n) = false ->
  Type_ (node n) <> DocumentNode ->
  properDescendant n l ->
  (In n (bfsVisited root criteria recurseIf) ->
   ~ In l (bfsVisited root criteria recurseIf)
   /\ BreadthFirstSearch root criteria recurseIf <> Ok l)
  /\ (In n (dfsVisited root criteria recurseIf) ->
      ~ In l (dfsVisited root criteria recurseIf)
      /\ DepthFirstSearch root criteria recurseIf <> Ok l).
Proof.
  intros Hr _ Hd Hl. split; intros Hn.
  - exact (loop_prunes root (bfs_worklist criteria recurseIf) Hr Hd Hl Hn).
  - exact (loop_prunes root (dfs_worklist criteria recurseIf) Hr Hd Hl Hn).
Qed.

(** C5: the two searches fail together, exactly when no node that the
    descend policy lets them reach matches; otherwise each returns a matching
    node that the policy lets it reach (not always the same one). *)
Theorem bfs_dfs_agree root criteria recurseIf :
  (BreadthFirstSearch root criteria recurseIf = Err ErrSearchFailed
   /\ DepthFirstSearch root criteria recurseIf = Err ErrSearchFailed
   /\ forall p, Reachable recurseIf root p -> criteria (node p) = false)
  \/ (exists b d,
        BreadthFirstSearch root criteria recurseIf = Ok b
        /\ DepthFirstSearch root criteria recurseIf = Ok d
        /\ criteria (node b) = true /\ criteria (node d) = true
        /\ Reachable recurseIf root b /\ Reachable recurseIf root d).
Proof.
  unfold BreadthFirstSearch, DepthFirstSearch.
  destruct (search_cases root (bfs_worklist criteria recurseIf))
    as [[Eb Hb] | [b [Eb [Hcb [_ Hvb]]]]];
  destruct (search_cases root (dfs_worklist criteria recurseIf))
    as [[Ed Hd] | [d [Ed [Hcd [_ Hvd]]]]].
  - left. auto.
  - apply Visit_Reachable in Hvd. rewrite (Hb _ Hvd) in Hcd. discriminate.
  - apply Visit_Reachable in Hvb. rewrite (Hd _ Hvb) in Hcb. discriminate.
  - right. exists b, d. repeat split; try assumption;
      eapply Visit_Reachable; eassumption.
Qed.

(** With two matches the searches can differ: in
    [<div><a>first</a><a>second</a></div>] the queue returns the first
    anchor and the stack the second. *)
Lemma bfs_dfs_may_differ :
  BreadthFirstSearch twoAnchors (IsTag AtomA) RecurseAlways
  = Ok (mkPtr [0] (anchor [text "first"]))
  /\ DepthFirstSearch twoAnchors (IsTag AtomA) RecurseAlways
     = Ok (mkPtr [1] (anchor [text "second"])).
Proof. split; reflexivity. Qed.

(** The exception of the pruning law: the document node is expanded whatever
    the descend predicate says. *)
Lemma document_node_expanded recurseIf p :
  Type_ (node p) = DocumentNode -> next recurseIf p = kids p.
Proof. unfold next, expands. now intros ->. Qed.

(** The pruning law at a search for an anchor that keeps out of [<head>]:
    the head is visited by both searches, and the anchor two levels below it
    by neither. *)
Lemma pruning_law_head :
  In headOfDivInHead (bfsVisited divInHead (IsTag AtomA) (Not (IsTag AtomHead)))
  /\ In headOfDivInHead (dfsVisited divInHead (IsTag AtomA) (Not (IsTag AtomHead)))
  /\ (~ In (mkPtr [0; 0; 0; 0] (anchor []))
          (bfsVisited divInHead (IsTag AtomA) (Not (IsTag AtomHead)))
      /\ BreadthFirstSearch divInHead (IsTag AtomA) (Not (IsTag AtomHead))
         <> Ok (mkPtr [0; 0; 0; 0] (anchor [])))
  /\ (~ In (mkPtr [0; 0; 0; 0] (anchor []))
          (dfsVisited divInHead (IsTag AtomA) (Not (IsTag AtomHead)))
      /\ DepthFirstSearch divInHead (IsTag AtomA) (Not (IsTag AtomHead))
         <> Ok (mkPtr [0; 0; 0; 0] (anchor []))).
Proof.
  assert (Hb : In headOfDivInHead
                 (bfsVisited divInHead (IsTag AtomA) (Not (IsTag AtomHead))))
    by (vm_compute; tauto).
  assert (Hd : In headOfDivInHead
                 (dfsVisited divInHead (IsTag AtomA) (Not (IsTag AtomHead))))
    by (vm_compute; tauto).
  destruct (@pruning_law divInHead (IsTag AtomA) (Not (IsTag AtomHead))
              headOfDivInHead (mkPtr [0; 0; 0; 0] (anchor [])))
    as [Pb Pd].
  - reflexivity.
  - reflexivity.
  - discriminate.
  - exists 0, [0]. reflexivity.
  - split; [exact Hb |]. split; [exact Hd |].
    split; [exact (Pb Hb) | exact (Pd Hd)].
Defined.

(* ------------------------------------------------------------------------- *)
(** * Strings: prefixes and suffixes *)
(* ------------------------------------------------------------------------- *)

Lemma length_append (a b : string) :
  String.length (a ++ b) = String.length a + String.length b.
Proof. induction a as [|c a IH]; simpl; [reflexivity | now rewrite IH]. Qed.

Lemma append_nil_r (a : string) : (a ++ "")%string = a.
Proof. induction a as [|c a IH]; simpl; [reflexivity | now rewrite IH]. Qed.

Lemma append_assoc (a b c : string) :
  ((a ++ b) ++ c)%string = (a ++ (b ++ c))%string.
Proof. induction a as [|x a IH]; simpl; [reflexivity | now rewrite IH]. Qed.

Lemma substring_head (p r : string) :
  substring 0 (String.length p) (p ++ r) = p.
Proof.
  induction p as [|c p IH]; simpl; [now destruct r | now rewrite IH].
Qed.

Lemma substring_skip (r s : string) (m : nat) :
  substring (String.length r) m (r ++ s) = substring 0 m s.
Proof. induction r as [|c r IH]; simpl; [reflexivity | exact IH]. Qed.

Lemma substring_all (s : string) : substring 0 (String.length s) s = s.
Proof. induction s as [|c s IH]; simpl; [reflexivity | now rewrite IH]. Qed.

Lemma substring_split (s : string) (n : nat) :
  n <= String.length s ->
  s = (substring 0 n s ++ substring n (String.length s - n) s)%string.
Proof.
  revert n. induction s as [|c s IH]; intros n Hn; simpl in *.
  - assert (n = 0) by lia. subst n. reflexivity.
  - destruct n as [|n]; simpl.
    + now rewrite substring_all.
    + f_equal. apply IH. lia.
Qed.

Lemma HasPrefix_iff (s pre : string) : HasPrefix s pre = true <-> beginsWith s pre.
Proof.
  unfold HasPrefix, beginsWith, slice. rewrite Nat.sub_0_r, andb_true_iff.
  rewrite Nat.leb_le, String.eqb_eq. split.
  - intros [Hl Hs]. exists (substring (String.length pre)
                              (String.length s - String.length pre) s).
    pose proof (@substring_split s (String.length pre) Hl) as Hsp.
    now rewrite Hs in Hsp.
  - intros [r ->]. rewrite length_append, substring_head. split; [lia | reflexivity].
Qed.

Lemma HasSuffix_iff (s suf : string) : HasSuffix s suf = true <-> endsWith s suf.
Proof.
  unfold HasSuffix, endsWith, slice. rewrite andb_true_iff.
  rewrite Nat.leb_le, String.eqb_eq. split.
  - intros [Hl Hs]. exists (substring 0 (String.length s - String.length suf) s).
    pose proof (@substring_split s (String.length s - String.length suf)) as Hsp.
    rewrite Hs in Hsp. apply Hsp. lia.
  - intros [r ->]. rewrite length_append. split; [lia |].
    replace (String.length r + String.length suf - String.length suf)
      with (String.length r) by lia.
    replace (String.length r + String.length suf - String.length r)
      with (String.length suf) by lia.
    now rewrite substring_skip, substring_all.
Qed.

Lemma HasPrefix_false (s pre : string) :
  HasPrefix s pre = false <-> ~ beginsWith s pre.
Proof.
  rewrite <- HasPrefix_iff. destruct (HasPrefix s pre); intuition congruence.
Qed.

Lemma HasSuffix_false (s suf : string) :
  HasSuffix s suf = false <-> ~ endsWith s suf.
Proof.
  rewrite <- HasSuffix_iff. destruct (HasSuffix s suf); intuition congruence.
Qed.

Lemma TrimPrefix_present (pre r : string) : TrimPrefix (pre ++ r) pre = r.
Proof.
  unfold TrimPrefix.
  assert (H : HasPrefix (pre ++ r) pre = true)
    by (apply HasPrefix_iff; now exists r).
  rewrite H. unfold slice. rewrite length_append, substring_skip.
  replace (String.length pre + String.length r - String.length pre)
    with (String.length r) by lia.
  apply substring_all.
Qed.

Lemma TrimPrefix_absent (s pre : string) :
  HasPrefix s pre = false -> TrimPrefix s pre = s.
Proof. unfold TrimPrefix. now intros ->. Qed.

(* ------------------------------------------------------------------------- *)
(** * Properties of the extraction of one post *)
(* ------------------------------------------------------------------------- *)

(** ** Classification *)

Lemma Classifies_functional url t1 t2 :
  Classifies url t1 -> Classifies url t2 -> t1 = t2.
Proof.
  intros H1 H2. destruct H1; destruct H2; try reflexivity; tauto.
Qed.

Lemma classifyFeedPost_rules post :
  Classifies (PostLink post) (classifyFeedPost post).
Proof.
  unfold classifyFeedPost.
  destruct (HasPrefix (PostLink post) "/r/") eqn:E1.
  { apply classify_text. now apply HasPrefix_iff. }
  apply HasPrefix_false in E1.
  destruct (HasSuffix (PostLink post) ".jpg" || HasSuffix (PostLink post) ".png")
    eqn:E2.
  { apply classify_image; [assumption |]. apply orb_true_iff in E2.
    rewrite !HasSuffix_iff in E2. exact E2. }
  assert (N2 : ~ (endsWith (PostLink post) ".jpg" \/ endsWith (PostLink post) ".png")).
  { apply orb_false_iff in E2. rewrite !HasSuffix_false in E2. tauto. }
  destruct (HasPrefix (PostLink post) "https://www.reddit.com/gallery/") eqn:E3.
  { apply classify_gallery; try assumption. now apply HasPrefix_iff. }
  apply HasPrefix_false in E3.
  destruct (HasPrefix (PostLink post) "https://v.reddit.com/"
            || HasPrefix (PostLink post) "https://v.redd.it/") eqn:E4.
  { apply classify_video; try assumption. apply orb_true_iff in E4.
    rewrite !HasPrefix_iff in E4. exact E4. }
  apply classify_link; try assumption.
  apply orb_false_iff in E4. rewrite !HasPrefix_false in E4. tauto.
Qed.

Lemma classifyFeedPost_by_link p q :
  PostLink p = PostLink q -> classifyFeedPost p = classifyFeedPost q.
Proof. unfold classifyFeedPost. now intros ->. Qed.

(** What [tryParseFeedPost] has done when it returns a record. *)
Lemma tryParseFeedPost_Ok n post :
  tryParseFeedPost n = Ok post ->
  exists v title thumbnailLink commentsLink,
    scanAttrs zeroVars (Attr n) = Ok v
    /\ ignoreErr (findTitle n) = Ok title
    /\ ignoreErr (findThumbnailLink n) = Ok thumbnailLink
    /\ ignoreErr (findCommentsLink n) = Ok commentsLink
    /\ post = setType (classifyFeedPost (buildPost v title thumbnailLink commentsLink))
                      (buildPost v title thumbnailLink commentsLink).
Proof.
  unfold tryParseFeedPost, bind.
  destruct (scanAttrs zeroVars (Attr n)) as [v| |]; try discriminate.
  destruct (ignoreErr (findTitle n)) as [t| |]; try discriminate.
  destruct (ignoreErr (findThumbnailLink n)) as [th| |]; try discriminate.
  destruct (ignoreErr (findCommentsLink n)) as [cl| |]; try discriminate.
  intros [= <-]. exists v, t, th, cl. auto.
Qed.

(** C2: the type of every record that extraction builds is the
    classification of its [PostLink] and of nothing else, and that
    classification follows the five rules in order, the first that applies
    deciding: ["/r/"] prefix, text; else [".jpg"] or [".png"] suffix, image;
    else gallery prefix, gallery; else one of the two video prefixes, video;
    else link. *)
Theorem classification_by_url n post :
  tryParseFeedPost n = Ok post ->
  PostType post = classifyFeedPost post
  /\ Classifies (PostLink post) (PostType post)
  /\ (forall t, Classifies (PostLink post) t -> t = PostType post)
  /\ (forall q, PostLink q = PostLink post -> classifyFeedPost q = PostType post).
Proof.
  intros H. destruct (tryParseFeedPost_Ok _ H) as [v [t [th [cl [_ [_ [_ [_ ->]]]]]]]].
  set (p0 := buildPost v t th cl).
  assert (E : PostType (setType (classifyFeedPost p0) p0)
              = classifyFeedPost (setType (classifyFeedPost p0) p0)) by reflexivity.
  split; [exact E |]. rewrite E. split; [apply classifyFeedPost_rules |].
  split.
  - intros ty Hty. eapply Classifies_functional;
      [exact Hty | apply classifyFeedPost_rules].
  - intros q Hq. now apply classifyFeedPost_by_link.
Qed.

(** ** The attribute loop *)

Ltac attr_cases :=
  repeat lazymatch goal with
    | |- context [if (?x =? ?y)%string then _ else _] =>
        let E := fresh "E" in destruct (x =? y)%string eqn:E; cbn [orb andb negb]
    | |- context [(?x =? ?y)%string] =>
        let E := fresh "E" in destruct (x =? y)%string eqn:E; cbn [orb andb negb]
    | |- context [match ParseInt ?x with _ => _ end] =>
        let E := fresh "P" in destruct (ParseInt x) eqn:E
    | |- context [match Atoi ?x with _ => _ end] =>
        let E := fresh "P" in destruct (Atoi x) eqn:E
    | |- context [match ParseBool ?x with _ => _ end] =>
        let E := fresh "P" in destruct (ParseBool x) eqn:E
    end.

Ltac keys_clash :=
  exfalso;
  repeat match goal with
    | H : (_ =? _)%string = true |- _ => apply String.eqb_eq in H
    end;
  congruence.

Lemma attrStep_outcomes v a :
  (skipMarker a = false /\ exists v', attrStep v a = Ok v')
  \/ (skipMarker a = true
      /\ (attrStep v a = Err ErrNotAPost \/ attrStep v a = Err ErrPostIsAd)).
Proof.
  unfold attrStep, skipMarker. destruct v as [i o sr ts sc cc pl sp ns].
  attr_cases; try discriminate;
    solve [ left; split; [reflexivity | eexists; reflexivity]
          | right; split; [reflexivity | auto]
          | keys_clash ].
Qed.

Lemma scanAttrs_app v pre post :
  scanAttrs v (pre ++ post) = (v' <- scanAttrs v pre ;; scanAttrs v' post).
Proof.
  revert v. induction pre as [|a pre IH]; intros v; simpl; [reflexivity |].
  destruct (attrStep v a) as [v'| |]; simpl; [apply IH | reflexivity | reflexivity].
Qed.

(** A child without a skip marker gets through the attribute loop. *)
Lemma scanAttrs_not_skipped attrs :
  (forall a, In a attrs -> skipMarker a = false) ->
  forall v, exists v', scanAttrs v attrs = Ok v'.
Proof.
  induction attrs as [|a attrs IH]; intros Hno v; simpl; [now exists v |].
  destruct (attrStep_outcomes v a) as [[_ [v' E]] | [Hs _]].
  - rewrite E. simpl. apply IH. intros b Hb. apply Hno. now right.
  - rewrite (Hno a (or_introl eq_refl)) in Hs. discriminate.
Qed.

(** The attribute loop returns no error but the two skip errors, and never
    panics. *)
Lemma scanAttrs_outcomes attrs v :
  (exists v', scanAttrs v attrs = Ok v')
  \/ ((scanAttrs v attrs = Err ErrNotAPost \/ scanAttrs v attrs = Err ErrPostIsAd)
      /\ exists a, In a attrs /\ skipMarker a = true).
Proof.
  revert v. induction attrs as [|a attrs IH]; intros v; simpl; [left; now exists v |].
  destruct (attrStep_outcomes v a) as [[_ [v' E]] | [Hs E]].
  - rewrite E. simpl. destruct (IH v') as [Hok | [He [b [Hb Hsb]]]]; [now left |].
    right. split; [exact He |]. exists b. auto.
  - right. split; [| exists a; auto]. destruct E as [-> | ->]; auto.
Qed.

(** ** The three lookups *)

Lemma bfs_lacks criteria recurseIf n :
  lacks criteria n -> BreadthFirstSearch n criteria recurseIf = Err ErrSearchFailed.
Proof.
  intros H. exact (search_fails_without_match n (bfs_worklist criteria recurseIf) H).
Qed.

Lemma dfs_lacks criteria recurseIf n :
  lacks criteria n -> DepthFirstSearch n criteria recurseIf = Err ErrSearchFailed.
Proof.
  intros H. exact (search_fails_without_match n (dfs_worklist criteria recurseIf) H).
Qed.

Lemma search_no_panic (r : Run) k : searchResult r <> Panic k.
Proof. unfold searchResult. now destruct (snd r). Qed.

Lemma search_error (r : Run) e : searchResult r = Err e -> e = ErrSearchFailed.
Proof. unfold searchResult. destruct (snd r); [discriminate | now intros [= <-]]. Qed.

Lemma node_at_app n q s :
  node_at n (q ++ s) =
  match node_at n q with
  | Some m => node_at m s
  | None => None
  end.
Proof.
  revert n. induction q as [|i q IH]; intros n; simpl; [reflexivity |].
  destruct (nth_error (Children n) i); [apply IH | reflexivity].
Qed.

(** What a subtree lacks, the subtrees in it lack. *)
Lemma lacks_below criteria n q m :
  lacks criteria n -> node_at n q = Some m -> lacks criteria m.
Proof.
  intros H Hq s k Hs. apply (H (q ++ s)). now rewrite node_at_app, Hq.
Qed.

(** What [BreadthFirstSearch] returns is in the tree it searched. *)
Lemma bfs_found_below n criteria recurseIf p :
  BreadthFirstSearch n criteria recurseIf = Ok p ->
  node_at n (path p) = Some (node p).
Proof.
  unfold BreadthFirstSearch. intros E.
  destruct (search_cases n (bfs_worklist criteria recurseIf))
    as [[E' _] | [p' [E' [_ [_ Hv]]]]]; [congruence |].
  rewrite E' in E. injection E as ->.
  apply (Reachable_node_at (Visit_Reachable Hv)).
Qed.

Lemma findCommentsLink_without n :
  noCommentsList n -> exists e, findCommentsLink n = Err e.
Proof.
  intros H. unfold findCommentsLink.
  destruct (BreadthFirstSearch n (IsTag AtomUl) RecurseAlways)
    as [buttonsBar|e|k] eqn:E1; [| eauto | now apply search_no_panic in E1].
  pose proof (bfs_found_below _ _ _ E1) as B1.
  destruct (BreadthFirstSearch (node buttonsBar) firstItemCriteria RecurseAlways)
    as [commentsNode|e|k] eqn:E2; [| eauto | now apply search_no_panic in E2].
  pose proof (bfs_found_below _ _ _ E2) as B2.
  destruct (BreadthFirstSearch (node commentsNode) commentsCriteria RecurseAlways)
    as [commentsLink|e|k] eqn:E3; [| eauto | now apply search_no_panic in E3].
  exfalso. destruct H as [H | [H | H]].
  - rewrite (bfs_lacks RecurseAlways H) in E1. discriminate.
  - pose proof (@lacks_below _ _ _ _ H B1) as H1.
    rewrite (bfs_lacks RecurseAlways H1) in E2. discriminate.
  - pose proof (@lacks_below _ _ _ _ H B1) as H1.
    pose proof (@lacks_below _ _ _ _ H1 B2) as H2.
    rewrite (bfs_lacks RecurseAlways H2) in E3. discriminate.
Qed.

Lemma collectPosts_records cs :
  forall posts out,
    collectPosts posts cs = Ok out -> out = posts ++ flat_map recordsOf cs.
Proof.
  induction cs as [|c cs IH]; intros posts out H; simpl in H.
  - injection H as <-. simpl. now rewrite app_nil_r.
  - simpl. unfold recordsOf at 1.
    destruct (NodeType_eqb (Type_ c) ElementNode); simpl in H.
    + destruct (tryParseFeedPost c) as [p|e|k]; try discriminate.
      * apply IH in H. now rewrite H, <- app_assoc.
      * now apply IH in H.
    + now apply IH in H.
Qed.

(** C8: a candidate child without a skip marker, and with no title anchor, no
    thumbnail anchor and no comments-link list anywhere in it, yields a
    record, with an empty title, thumbnail link and comments link; the page
    loop appends exactly that one record for it: a container with this child
    alone gives the one record, and in every page that is extracted the
    record stands once, between the records of the children before and
    those of the children after. *)
Theorem bare_child_yields_one_record c :
  Type_ c = ElementNode ->
  (forall a, In a (Attr c) -> skipMarker a = false) ->
  lacks titleCriteria c ->
  lacks thumbnailCriteria c ->
  noCommentsList c ->
  exists p,
    tryParseFeedPost c = Ok p
    /\ Title p = "" /\ ThumbnailLink p = "" /\ CommentsLink p = ""
    /\ (forall posts rest,
          collectPosts posts (c :: rest) = collectPosts (posts ++ [p]) rest)
    /\ (forall posts, collectPosts posts [c] = Ok (posts ++ [p]))
    /\ (forall doc siteTable,
          getSiteTable doc = Ok siteTable ->
          Children (node siteTable) = [c] ->
          getFeedPosts doc = Ok [p])
    /\ (forall doc siteTable before after posts,
          getSiteTable doc = Ok siteTable ->
          Children (node siteTable) = before ++ c :: after ->
          getFeedPosts doc = Ok posts ->
          posts = flat_map recordsOf before ++ p :: flat_map recordsOf after).
Proof.
  intros Hty Hskip Ht Hth Hcl.
  destruct (scanAttrs_not_skipped _ Hskip zeroVars) as [v Ev].
  destruct (findCommentsLink_without Hcl) as [e Ec].
  assert (E : tryParseFeedPost c
              = Ok (setType (classifyFeedPost (buildPost v "" "" ""))
                            (buildPost v "" "" ""))).
  { unfold tryParseFeedPost, findTitle, findThumbnailLink.
    rewrite Ev, (dfs_lacks RecurseAlways Ht), (bfs_lacks RecurseAlways Hth), Ec.
    reflexivity. }
  assert (Hone : forall posts rest,
             collectPosts posts (c :: rest)
             = collectPosts
                 (posts ++ [setType (classifyFeedPost (buildPost v "" "" ""))
                                    (buildPost v "" "" "")]) rest).
  { intros posts rest. simpl. rewrite Hty, E. reflexivity. }
  eexists. split; [exact E |]. split; [reflexivity |]. split; [reflexivity |].
  split; [reflexivity |]. split; [exact Hone |]. split; [| split].
  - intros posts. now rewrite Hone.
  - intros doc st Est Ecs. unfold getFeedPosts. rewrite Est. simpl.
    rewrite Ecs. now rewrite Hone.
  - intros doc st before after posts Est Ecs Ep.
    unfold getFeedPosts in Ep. rewrite Est in Ep. simpl in Ep.
    apply collectPosts_records in Ep. rewrite Ecs, flat_map_app in Ep.
    simpl in Ep. unfold recordsOf at 2 in Ep. rewrite Hty, E in Ep.
    simpl in Ep. exact Ep.
Qed.

Lemma node_at_Reachable root q m :
  node_at root q = Some m -> Reachable RecurseAlways root (mkPtr q m).
Proof.
  revert m. induction q as [|i q IH] using rev_ind; intros m H.
  - simpl in H. injection H as <-. apply reach_root.
  - rewrite node_at_snoc in H. destruct (node_at root q) as [k|] eqn:Ek;
      [| discriminate].
    apply (@reach_child RecurseAlways root (mkPtr q k) _ (IH k eq_refl)).
    apply In_next. split.
    + unfold expands, RecurseAlways. apply orb_true_r.
    + apply In_kids. now exists i, m.
Qed.

(** A tree in which the search that descends everywhere finds nothing has
    nothing to find. *)
Lemma failed_search_lacks criteria n :
  BreadthFirstSearch n criteria RecurseAlways = Err ErrSearchFailed ->
  lacks criteria n.
Proof.
  unfold BreadthFirstSearch. intros E q m Hq.
  destruct (search_cases n (bfs_worklist criteria RecurseAlways))
    as [[_ Hn] | [p [E' _]]]; [| congruence].
  exact (Hn _ (node_at_Reachable _ _ Hq)).
Qed.

(** [listPost] has a list and a first item in it, and no comments anchor. *)
Lemma bare_child_example :
  exists p,
    tryParseFeedPost listPost = Ok p
    /\ Title p = "" /\ ThumbnailLink p = "" /\ CommentsLink p = ""
    /\ (forall posts rest,
          collectPosts posts (listPost :: rest) = collectPosts (posts ++ [p]) rest)
    /\ (forall posts, collectPosts posts [listPost] = Ok (posts ++ [p]))
    /\ (forall doc siteTable,
          getSiteTable doc = Ok siteTable ->
          Children (node siteTable) = [listPost] ->
          getFeedPosts doc = Ok [p])
    /\ (forall doc siteTable before after posts,
          getSiteTable doc = Ok siteTable ->
          Children (node siteTable) = before ++ listPost :: after ->
          getFeedPosts doc = Ok posts ->
          posts = flat_map recordsOf before ++ p :: flat_map recordsOf after).
Proof.
  apply bare_child_yields_one_record.
  - reflexivity.
  - intros a [<- | [<- | []]]; reflexivity.
  - apply failed_search_lacks. reflexivity.
  - apply failed_search_lacks. reflexivity.
  - right. right. apply failed_search_lacks. reflexivity.
Defined.

Lemma imagePost_record : tryParseFeedPost imagePost = Ok imageRecord.
Proof. reflexivity. Qed.

Lemma classification_of_imagePost :
  PostType imageRecord = classifyFeedPost imageRecord
  /\ Classifies (PostLink imageRecord) (PostType imageRecord)
  /\ (forall t, Classifies (PostLink imageRecord) t -> t = PostType imageRecord)
  /\ (forall q, PostLink q = PostLink imageRecord ->
                classifyFeedPost q = PostType imageRecord).
Proof. apply (@classification_by_url imagePost imageRecord). reflexivity. Defined.

(** C9: when the depth-first search for the title anchor returns an anchor
    without children, [findTitle] dereferences its nil [FirstChild]: the
    lookup panics, and with it the extraction of the child (which the
    attribute loop has not skipped) and the loop over the page; no record
    with an empty title is produced. *)
Theorem childless_title_anchor_panics n v titleNode :
  scanAttrs zeroVars (Attr n) = Ok v ->
  DepthFirstSearch n titleCriteria RecurseAlways = Ok titleNode ->
  FirstChild (node titleNode) = None ->
  findTitle n = Panic NilDereference
  /\ tryParseFeedPost n = Panic NilDereference
  /\ (Type_ n = ElementNode ->
      forall posts rest, collectPosts posts (n :: rest) = Panic NilDereference).
Proof.
  intros Ev Ed Hc.
  assert (Ef : findTitle n = Panic NilDereference).
  { unfold findTitle. now rewrite Ed, Hc. }
  assert (Et : tryParseFeedPost n = Panic NilDereference).
  { unfold tryParseFeedPost. now rewrite Ev, Ef. }
  split; [exact Ef |]. split; [exact Et |].
  intros Hty posts rest. simpl. now rewrite Hty, Et.
Qed.

Lemma untitledPost_panics :
  findTitle untitledPost = Panic NilDereference
  /\ tryParseFeedPost untitledPost = Panic NilDereference
  /\ (Type_ untitledPost = ElementNode ->
      forall posts rest,
        collectPosts posts (untitledPost :: rest) = Panic NilDereference).
Proof.
  apply (@childless_title_anchor_panics untitledPost
           (mkVars "t3_abc" "" "" zeroTime 0 0 "" false false)
           (mkPtr [1; 0; 0; 0]
              (el AtomA "a" [("class", "title may-blank"); ("href", "/x")] []))).
  - reflexivity.
  - reflexivity.
  - reflexivity.
Defined.

(** C10: once both searches succeed, the thumbnail link is ["https://"]
    followed by the [src] of the image without a leading ["//"], whatever the
    [src] is: a protocol-relative [src] gets the scheme, and a [src] that
    has a scheme already (["http://..."], ["https://..."]) keeps it behind
    the added one. *)
Theorem thumbnail_link_prefixed n thumbnailNode imgNode :
  BreadthFirstSearch n thumbnailCriteria RecurseAlways = Ok thumbnailNode ->
  BreadthFirstSearch (node thumbnailNode) imgCriteria RecurseAlways = Ok imgNode ->
  findThumbnailLink n
  = Ok ("https://" ++ TrimPrefix (fst (GetAttribute (node imgNode) "src")) "//")%string
  /\ (forall rest,
        fst (GetAttribute (node imgNode) "src") = ("//" ++ rest)%string ->
        findThumbnailLink n = Ok ("https://" ++ rest)%string)
  /\ (forall rest,
        fst (GetAttribute (node imgNode) "src") = ("http://" ++ rest)%string ->
        findThumbnailLink n = Ok ("https://http://" ++ rest)%string)
  /\ (forall rest,
        fst (GetAttribute (node imgNode) "src") = ("https://" ++ rest)%string ->
        findThumbnailLink n = Ok ("https://https://" ++ rest)%string).
Proof.
  intros Et Ei.
  assert (E : findThumbnailLink n
              = Ok ("https://"
                    ++ TrimPrefix (fst (GetAttribute (node imgNode) "src")) "//")%string).
  { unfold findThumbnailLink. now rewrite Et, Ei. }
  split; [exact E |]. rewrite E.
  split; [| split]; intros rest ->.
  - now rewrite TrimPrefix_present.
  - now rewrite TrimPrefix_absent.
  - now rewrite TrimPrefix_absent.
Qed.

Lemma absolute_thumbnail_doubled :
  findThumbnailLink absoluteThumbnailPost
  = Ok "https://http://b.thumbs.redditmedia.com/x.jpg".
Proof.
  refine (proj1 (@thumbnail_link_prefixed absoluteThumbnailPost
                   (mkPtr [0] (thumbnailOf "http://b.thumbs.redditmedia.com/x.jpg"))
                   (mkPtr [0]
                      (el AtomImg "img"
                         [("src", "http://b.thumbs.redditmedia.com/x.jpg");
                          ("width", "70")] []))
                   _ _)); reflexivity.
Defined.

(* ------------------------------------------------------------------------- *)
(** * Properties of the extraction of a page *)
(* ------------------------------------------------------------------------- *)

(** The loop over the children of the container returns no error: what a
    child fails with is dropped. *)
Lemma collectPosts_no_error cs posts e : collectPosts posts cs <> Err e.
Proof.
  revert posts. induction cs as [|c cs IH]; intros posts; simpl; [discriminate |].
  destruct (negb (NodeType_eqb (Type_ c) ElementNode)); [apply IH |].
  destruct (tryParseFeedPost c); [apply IH | apply IH | discriminate].
Qed.

Lemma getSiteTable_error doc e :
  getSiteTable doc = Err e <->
  e = Wrapf "site table not found" ErrSearchFailed
  /\ BreadthFirstSearch doc siteTableCriteria (Not (IsTag AtomHead))
     = Err ErrSearchFailed.
Proof.
  unfold getSiteTable, BreadthFirstSearch.
  destruct (searchResult _) as [p|e'|k] eqn:E.
  - split; [discriminate | intros [_ H]; discriminate].
  - apply search_error in E. subst e'. split; [now intros [= <-] | now intros [-> _]].
  - now apply search_no_panic in E.
Qed.

(** The error of the container: [getFeedPosts] returns the error that wraps
    [ErrSearchFailed] exactly when the breadth-first search that stays out of
    [<head>] finds no [<div id="siteTable">], that is when no node that
    search can reach is one; [getFeedPosts] returns no other error, and
    [RedditParser.Feed] returns the same error to its caller. *)
Lemma container_not_found doc :
  (getFeedPosts doc = Err (Wrapf "site table not found" ErrSearchFailed)
   <-> BreadthFirstSearch doc siteTableCriteria (Not (IsTag AtomHead))
       = Err ErrSearchFailed)
  /\ (BreadthFirstSearch doc siteTableCriteria (Not (IsTag AtomHead))
      = Err ErrSearchFailed
      <-> forall p, Reachable (Not (IsTag AtomHead)) doc p ->
                    siteTableCriteria (node p) = false)
  /\ (forall e, getFeedPosts doc = Err e ->
                e = Wrapf "site table not found" ErrSearchFailed)
  /\ (forall getFeedDocument options opts e,
        applyOptions defaultOpts options = Ok opts ->
        getFeedDocument (constructURL opts) (Headers opts) = Ok doc ->
        getFeedPosts doc = Err e ->
        RedditParser_Feed getFeedDocument options = Err e).
Proof.
  assert (Herr : forall e, getFeedPosts doc = Err e -> getSiteTable doc = Err e).
  { intros e. unfold getFeedPosts, bind.
    destruct (getSiteTable doc) as [st|e'|k]; [| now intros [= ->] | discriminate].
    intros H. exfalso. eapply collectPosts_no_error. exact H. }
  split; [| split; [| split]].
  - split.
    + intros H. apply Herr, getSiteTable_error in H. tauto.
    + intros H. unfold getFeedPosts.
      assert (E : getSiteTable doc = Err (Wrapf "site table not found" ErrSearchFailed))
        by (apply getSiteTable_error; auto).
      now rewrite E.
  - unfold BreadthFirstSearch.
    destruct (search_cases doc (bfs_worklist siteTableCriteria (Not (IsTag AtomHead))))
      as [[Eb Hn] | [b [Eb [Hb [_ Vb]]]]].
    + tauto.
    + split; [rewrite Eb; discriminate |].
      intros Hn. apply Visit_Reachable in Vb. rewrite (Hn _ Vb) in Hb.
      discriminate.
  - intros e H. apply Herr, getSiteTable_error in H. tauto.
  - intros fetch options opts e Eo Ef Eg. unfold RedditParser_Feed.
    rewrite Eo. simpl. rewrite Ef. simpl. now rewrite Eg.
Qed.

(** ** What else can happen to a page

    Once the container is found, extraction returns the posts, unless the
    title lookup of a child runs into an anchor without children. *)

Lemma findThumbnailLink_no_panic n k : findThumbnailLink n <> Panic k.
Proof.
  unfold findThumbnailLink, BreadthFirstSearch, searchResult.
  destruct (snd (bfs_loop thumbnailCriteria RecurseAlways [rootPtr n]));
    [| discriminate].
  destruct (snd (bfs_loop imgCriteria RecurseAlways _)); discriminate.
Qed.

Lemma findCommentsLink_no_panic n k : findCommentsLink n <> Panic k.
Proof.
  unfold findCommentsLink, BreadthFirstSearch, searchResult.
  destruct (snd (bfs_loop (IsTag AtomUl) RecurseAlways [rootPtr n]));
    [| discriminate].
  destruct (snd (bfs_loop firstItemCriteria RecurseAlways _)); [| discriminate].
  destruct (snd (bfs_loop commentsCriteria RecurseAlways _)); [| discriminate].
  destruct (GetAttribute _ "href") as [link [|]]; discriminate.
Qed.

Lemma findTitle_panic n k : findTitle n = Panic k -> k = NilDereference.
Proof.
  unfold findTitle, DepthFirstSearch, searchResult.
  destruct (snd (dfs_loop titleCriteria RecurseAlways [rootPtr n])) as [t|];
    [| discriminate].
  destruct (FirstChild (node t)); [discriminate | now intros [= <-]].
Qed.

Lemma tryParseFeedPost_panic n k :
  tryParseFeedPost n = Panic k -> k = NilDereference.
Proof.
  unfold tryParseFeedPost, bind.
  destruct (scanAttrs_outcomes (Attr n) zeroVars) as [[v ->] | [[-> | ->] _]];
    try discriminate.
  destruct (findTitle n) as [t|e|k'] eqn:Et; simpl.
  - pose proof (@findThumbnailLink_no_panic n) as Hth.
    pose proof (@findCommentsLink_no_panic n) as Hcl.
    destruct (findThumbnailLink n) as [th|e|k']; simpl;
      [| | now elim (Hth k')];
      destruct (findCommentsLink n) as [cl|e'|k'']; simpl;
      try discriminate; now elim (Hcl k'').
  - pose proof (@findThumbnailLink_no_panic n) as Hth.
    pose proof (@findCommentsLink_no_panic n) as Hcl.
    destruct (findThumbnailLink n) as [th|e0|k']; simpl;
      [| | now elim (Hth k')];
      destruct (findCommentsLink n) as [cl|e'|k'']; simpl;
      try discriminate; now elim (Hcl k'').
  - intros [= <-]. now apply findTitle_panic in Et.
Qed.

Lemma collectPosts_outcomes cs posts :
  (exists posts', collectPosts posts cs = Ok posts')
  \/ collectPosts posts cs = Panic NilDereference.
Proof.
  revert posts. induction cs as [|c cs IH]; intros posts; simpl;
    [left; now exists posts |].
  destruct (negb (NodeType_eqb (Type_ c) ElementNode)); [apply IH |].
  destruct (tryParseFeedPost c) as [p|e|k] eqn:E; [apply IH | apply IH |].
  right. now rewrite (tryParseFeedPost_panic _ E).
Qed.

Lemma getFeedPosts_outcomes doc :
  getFeedPosts doc = Err (Wrapf "site table not found" ErrSearchFailed)
  \/ (exists posts, getFeedPosts doc = Ok posts)
  \/ getFeedPosts doc = Panic NilDereference.
Proof.
  unfold getFeedPosts, getSiteTable, BreadthFirstSearch, searchResult, bind.
  destruct (snd (bfs_loop siteTableCriteria (Not (IsTag AtomHead)) [rootPtr doc]))
    as [st|]; [right | now left].
  apply collectPosts_outcomes.
Qed.

(** C6, at a page whose container is found: the second of its three
    children has a title anchor without children; the title lookup
    dereferences the missing first child, and the extraction of the whole
    page, and [RedditParser.Feed] with it, ends in that panic: it returns
    neither the posts nor the error of the container.  The two other
    children alone give their two records. *)
Theorem untitled_post_aborts_page :
  (exists siteTable,
      getSiteTable untitledPage = Ok siteTable
      /\ Children (node siteTable) = [barePost; untitledPost; barePost])
  /\ tryParseFeedPost untitledPost = Panic NilDereference
  /\ getFeedPosts untitledPage = Panic NilDereference
  /\ RedditParser_Feed (fun _ _ => Ok untitledPage) [] = Panic NilDereference
  /\ (exists p, tryParseFeedPost barePost = Ok p
                /\ collectPosts [] [barePost; barePost] = Ok [p; p]).
Proof.
  split; [| split; [| split; [| split]]].
  - eexists. split; reflexivity.
  - reflexivity.
  - reflexivity.
  - reflexivity.
  - eexists. split; reflexivity.
Qed.

(** ** The next page link *)

Lemma nextPage_last opts posts last :
  nextPage opts (posts ++ [last])
  = Ok (mkFeed (posts ++ [last])
          (constructURL (mkOpts "" (optSubreddit opts) (optSortMethod opts)
                                (Count opts) (Some (ID last)) (Headers opts)))).
Proof.
  unfold nextPage, elemAt. rewrite length_app. simpl.
  replace (Z.of_nat (Datatypes.length posts + 1) - 1)%Z
    with (Z.of_nat (Datatypes.length posts)) by lia.
  assert (E1 : (Z.of_nat (Datatypes.length posts) <? 0)%Z = false)
    by (apply Z.ltb_ge; lia).
  assert (E2 : (Z.of_nat (Datatypes.length posts + 1)
                <=? Z.of_nat (Datatypes.length posts))%Z = false)
    by (apply Z.leb_gt; lia).
  rewrite E1, E2. simpl. rewrite Nat2Z.id, nth_error_app2, Nat.sub_diag by lia. reflexivity.
Qed.

Lemma nextPage_empty opts : nextPage opts [] = Panic (IndexOutOfRange (-1) 0).
Proof. reflexivity. Qed.

(** [Feed] panics at every page from which no post is extracted. *)
Lemma feed_panics_without_posts getFeedDocument options opts doc :
  applyOptions defaultOpts options = Ok opts ->
  getFeedDocument (constructURL opts) (Headers opts) = Ok doc ->
  getFeedPosts doc = Ok [] ->
  RedditParser_Feed getFeedDocument options = Panic (IndexOutOfRange (-1) 0).
Proof.
  intros Eo Ed Ep. unfold RedditParser_Feed. rewrite Eo. simpl.
  rewrite Ed. simpl. rewrite Ep. reflexivity.
Qed.

(** The scenario of the specification: a spacer, then the post [t3_abc]
    with an image link, then the post [t3_def] with a link into a subreddit,
    give the two records in that order and a next page link after
    [t3_def]. *)
Lemma feed_of_threeChildren :
  RedditParser_Feed (fun _ _ => Ok threeChildren) [WithSubreddit "foo"]
  = Ok (mkFeed
          [mkFeedPost "t3_abc" FeedPostTypeImage "" "" "" (UnixMilli 1700000000000)
                      0 0 "" "https://example.com/x.png" "" false false;
           mkFeedPost "t3_def" FeedPostTypeText "" "" "" zeroTime
                      0 0 "" "/r/foo/comments/def" "" false false]
          "/r/foo/?after=t3_def").
Proof. reflexivity. Qed.

(** C1, at a page without posts: the container is found and the post
    sequence is empty; [Feed] then reads [posts[len(posts)-1]] with no guard,
    which is [posts[-1]], and panics. *)
Theorem feed_without_posts_panics :
  getFeedPosts emptyPage = Ok []
  /\ (forall opts, nextPage opts [] = Panic (IndexOutOfRange (-1) 0))
  /\ RedditParser_Feed (fun _ _ => Ok emptyPage) []
     = Panic (IndexOutOfRange (-1) 0).
Proof. repeat split. Qed.

(* ------------------------------------------------------------------------- *)
(** * Attributes that fail to parse *)
(* ------------------------------------------------------------------------- *)

(** C7, as stated, fails: the second [data-score] of
    [<div data-score="7" data-score="seven">] does not parse, the record is
    produced, and its score is 7, the value of the first, not zero. *)
Lemma malformed_duplicate_keeps_earlier_value :
  In (mkAttr "" "data-score" "seven") (Attr twiceScored)
  /\ Atoi "seven" = None
  /\ exists p, tryParseFeedPost twiceScored = Ok p
               /\ Score p = 7%Z /\ Score p <> 0%Z.
Proof.
  split; [right; now left |]. split; [reflexivity |].
  eexists. split; [reflexivity |]. split; [reflexivity | discriminate].
Qed.

(** The loop turn at an attribute that does not parse is [continue]. *)
Lemma attrStep_malformed f a v :
  Key a = fieldKey f -> parses f (Val a) = false -> attrStep v a = Ok v.
Proof.
  intros Hk Hp. unfold attrStep. destruct v as [i o sr ts sc cc pl sp ns].
  rewrite Hk. destruct f; simpl in *;
    match goal with
    | H : isSome ?x = false |- _ => destruct x; [discriminate | reflexivity]
    end.
Qed.

Lemma skipMarker_dataField f a : Key a = fieldKey f -> skipMarker a = false.
Proof. unfold skipMarker. intros ->. now destruct f. Qed.

(** A loop turn changes the variable of a field only at an attribute with
    the key of the field whose value parses. *)
Lemma attrStep_sameVar f a v v' :
  (Key a = fieldKey f -> parses f (Val a) = false) ->
  attrStep v a = Ok v' -> sameVar f v v'.
Proof.
  intros Hk. unfold attrStep. destruct v as [i o sr ts sc cc pl sp ns].
  attr_cases; try discriminate; intros [= <-]; destruct f; try reflexivity;
    exfalso;
    match goal with
    | E : (Key a =? _)%string = true |- _ =>
        apply String.eqb_eq in E; specialize (Hk E); simpl in Hk;
        match goal with
        | P : _ = Some _ |- _ => rewrite P in Hk; discriminate
        end
    end.
Qed.

Lemma sameVar_trans f v1 v2 v3 : sameVar f v1 v2 -> sameVar f v2 v3 -> sameVar f v1 v3.
Proof. destruct f; simpl; congruence. Qed.

Lemma scanAttrs_sameVar f attrs :
  (forall b, In b attrs -> Key b = fieldKey f -> parses f (Val b) = false) ->
  forall v v', scanAttrs v attrs = Ok v' -> sameVar f v v'.
Proof.
  induction attrs as [|a attrs IH]; intros Hno v v'; simpl.
  - intros [= <-]. now destruct f.
  - destruct (attrStep v a) as [v1| |] eqn:E; simpl; try discriminate.
    intros H. apply sameVar_trans with v1.
    + eapply attrStep_sameVar; [| exact E]. apply Hno. now left.
    + apply IH; [| exact H]. intros b Hb. apply Hno. now right.
Qed.

Lemma scanAttrs_drop f pre a post v :
  Key a = fieldKey f -> parses f (Val a) = false ->
  scanAttrs v (pre ++ a :: post) = scanAttrs v (pre ++ post).
Proof.
  intros Hk Hp. rewrite !scanAttrs_app. destruct (scanAttrs v pre) as [v'| |];
    simpl; [| reflexivity | reflexivity].
  now rewrite (attrStep_malformed f a v' Hk Hp).
Qed.

(** ** The lookups do not read the data attributes *)

Lemma bfs_at_root root criteria recurseIf :
  BreadthFirstSearch root criteria recurseIf =
  if criteria root then Ok (rootPtr root)
  else searchResult (bfs_loop criteria recurseIf (next recurseIf (rootPtr root))).
Proof.
  unfold BreadthFirstSearch. rewrite bfs_loop_cons. simpl.
  now destruct (criteria root).
Qed.

Lemma dfs_at_root root criteria recurseIf :
  DepthFirstSearch root criteria recurseIf =
  if criteria root then Ok (rootPtr root)
  else searchResult (dfs_loop criteria recurseIf (next recurseIf (rootPtr root))).
Proof.
  unfold DepthFirstSearch.
  change [rootPtr root] with ([] ++ [rootPtr root]).
  rewrite dfs_loop_snoc. simpl. now destruct (criteria root).
Qed.

Lemma next_alike n n' :
  Children n = Children n' ->
  next RecurseAlways (rootPtr n) = next RecurseAlways (rootPtr n').
Proof.
  intros H. unfold next, kids, expands, RecurseAlways. simpl.
  rewrite !orb_true_r. now rewrite H.
Qed.

(** A search from either of two like nodes returns its root, or the same
    node below it, or fails. *)
Lemma bfs_alike criteria n n' :
  alike criteria n n' ->
  (BreadthFirstSearch n criteria RecurseAlways = Ok (rootPtr n)
   /\ BreadthFirstSearch n' criteria RecurseAlways = Ok (rootPtr n'))
  \/ (BreadthFirstSearch n criteria RecurseAlways
      = BreadthFirstSearch n' criteria RecurseAlways).
Proof.
  intros [Hc Hm]. rewrite !bfs_at_root, <- Hm, (next_alike n n' Hc).
  destruct (criteria n); [left | right]; auto.
Qed.

Lemma dfs_alike criteria n n' :
  alike criteria n n' ->
  (DepthFirstSearch n criteria RecurseAlways = Ok (rootPtr n)
   /\ DepthFirstSearch n' criteria RecurseAlways = Ok (rootPtr n'))
  \/ (DepthFirstSearch n criteria RecurseAlways
      = DepthFirstSearch n' criteria RecurseAlways).
Proof.
  intros [Hc Hm]. rewrite !dfs_at_root, <- Hm, (next_alike n n' Hc).
  destruct (criteria n); [left | right]; auto.
Qed.

Lemma getAttr_without pre a post key :
  (Key a =? key) = false ->
  getAttr (pre ++ a :: post) key = getAttr (pre ++ post) key.
Proof.
  intros Hk. induction pre as [|b l IH]; simpl; [now rewrite Hk |].
  destruct (Key b =? key); [reflexivity | exact IH].
Qed.

Section DropAttribute.

Variables (n : Node) (pre post : list Attribute) (a : Attribute) (f : dataField).
Hypothesis attrs_of_n : Attr n = pre ++ a :: post.
Hypothesis key_of_a : Key a = fieldKey f.

Let n' : Node := withAttr n (pre ++ post).

Lemma existsb_drop (g : Attribute -> bool) :
  g a = false -> existsb g (Attr n) = existsb g (Attr n').
Proof.
  intros Hg. rewrite attrs_of_n. simpl. rewrite !existsb_app. simpl.
  now rewrite Hg.
Qed.

Lemma getAttr_drop key :
  (Key a =? key) = false -> GetAttribute n key = GetAttribute n' key.
Proof.
  intros Hk. unfold GetAttribute. rewrite attrs_of_n. simpl.
  now apply getAttr_without.
Qed.

Lemma IsTag_drop name : IsTag name n = IsTag name n'.
Proof. reflexivity. Qed.

Lemma And_tag_drop name (g : Attribute -> bool) :
  g a = false ->
  alike (And [IsTag name; fun m => existsb g (Attr m)]) n n'.
Proof.
  intros Hg. split; [reflexivity |]. unfold And. simpl.
  now rewrite (existsb_drop g Hg), IsTag_drop.
Qed.

Lemma key_is_not (key : string) :
  In key ["class"; "src"; "href"; "id"] -> (Key a =? key) = false.
Proof.
  rewrite key_of_a. intros [<- | [<- | [<- | [<- | []]]]]; now destruct f.
Qed.

Lemma titleCriteria_alike : alike titleCriteria n n'.
Proof.
  apply And_tag_drop. rewrite key_is_not; [reflexivity | simpl; tauto].
Qed.

Lemma thumbnailCriteria_alike : alike thumbnailCriteria n n'.
Proof.
  apply And_tag_drop. rewrite key_is_not; [reflexivity | simpl; tauto].
Qed.

Lemma imgCriteria_alike : alike imgCriteria n n'.
Proof. apply And_tag_drop. apply key_is_not. simpl; tauto. Qed.

Lemma firstItemCriteria_alike : alike firstItemCriteria n n'.
Proof.
  apply And_tag_drop. rewrite key_is_not; [reflexivity | simpl; tauto].
Qed.

Lemma commentsCriteria_alike : alike commentsCriteria n n'.
Proof.
  apply And_tag_drop. rewrite key_is_not; [reflexivity | simpl; tauto].
Qed.

Lemma listCriteria_alike : alike (IsTag AtomUl) n n'.
Proof. split; reflexivity. Qed.

Lemma findTitle_drop : findTitle n = findTitle n'.
Proof.
  unfold findTitle.
  destruct (dfs_alike titleCriteria_alike) as [[-> ->] | ->]; reflexivity.
Qed.

Lemma findThumbnailLink_drop : findThumbnailLink n = findThumbnailLink n'.
Proof.
  unfold findThumbnailLink.
  destruct (bfs_alike thumbnailCriteria_alike) as [[-> ->] | ->];
    [| reflexivity].
  simpl. destruct (bfs_alike imgCriteria_alike) as [[-> ->] | ->];
    [| reflexivity].
  simpl. rewrite (getAttr_drop "src"); [reflexivity |].
  apply key_is_not. simpl; tauto.
Qed.

Lemma findCommentsLink_drop : findCommentsLink n = findCommentsLink n'.
Proof.
  unfold findCommentsLink.
  destruct (bfs_alike listCriteria_alike) as [[-> ->] | ->]; [| reflexivity].
  simpl. destruct (bfs_alike firstItemCriteria_alike) as [[-> ->] | ->];
    [| reflexivity].
  simpl. destruct (bfs_alike commentsCriteria_alike) as [[-> ->] | ->];
    [| reflexivity].
  simpl. rewrite (getAttr_drop "href"); [reflexivity |].
  apply key_is_not. simpl; tauto.
Qed.

Lemma tryParseFeedPost_drop :
  parses f (Val a) = false -> tryParseFeedPost n = tryParseFeedPost n'.
Proof.
  intros Hp. unfold tryParseFeedPost.
  rewrite findTitle_drop, findThumbnailLink_drop, findCommentsLink_drop.
  rewrite attrs_of_n. simpl.
  now rewrite (scanAttrs_drop f pre a post zeroVars key_of_a Hp).
Qed.

End DropAttribute.

Lemma tryParseFeedPost_Err n e :
  tryParseFeedPost n = Err e -> scanAttrs zeroVars (Attr n) = Err e.
Proof.
  unfold tryParseFeedPost, bind.
  destruct (scanAttrs zeroVars (Attr n)) as [v| |];
    [| now intros [= ->] | discriminate].
  destruct (findTitle n); simpl; try discriminate;
    destruct (findThumbnailLink n); simpl; try discriminate;
    destruct (findCommentsLink n); simpl; discriminate.
Qed.

(** C7, amended: a data attribute that fails to parse is passed over. The
    loop turn at it changes no variable; the outcome for the child is the
    outcome for the same child without that attribute; the only errors the
    child can fail with are the two skip errors, raised by a marker among the
    other attributes; and in the record, if one is produced, the field is
    zero unless another attribute with the same key parses. *)
Theorem malformed_attribute_ignored n pre a post f :
  Attr n = pre ++ a :: post ->
  Key a = fieldKey f ->
  parses f (Val a) = false ->
  (forall v, attrStep v a = Ok v)
  /\ tryParseFeedPost n = tryParseFeedPost (withAttr n (pre ++ post))
  /\ (forall e, tryParseFeedPost n = Err e ->
        (e = ErrNotAPost \/ e = ErrPostIsAd)
        /\ exists b, In b (pre ++ post) /\ skipMarker b = true)
  /\ (forall p, tryParseFeedPost n = Ok p ->
        (forall b, In b (pre ++ post) -> Key b = fieldKey f ->
                   parses f (Val b) = false) ->
        fieldZero f p).
Proof.
  intros Hn Hk Hp.
  split; [intros v; now apply (attrStep_malformed f) |].
  split; [now apply (tryParseFeedPost_drop n pre post a f) |].
  split.
  - intros e He. apply tryParseFeedPost_Err in He.
    destruct (scanAttrs_outcomes (Attr n) zeroVars)
      as [[v Ev] | [Hs [b [Hb Hm]]]]; [congruence |].
    split; [destruct Hs as [Hs | Hs]; rewrite Hs in He; injection He; auto |].
    exists b. split; [| exact Hm].
    rewrite Hn in Hb. apply in_app_iff in Hb. apply in_app_iff.
    destruct Hb as [Hb | [<- | Hb]]; auto.
    rewrite (skipMarker_dataField f a Hk) in Hm. discriminate.
  - intros p Hok Hno.
    destruct (tryParseFeedPost_Ok _ Hok) as [v [t [th [cl [Ev [_ [_ [_ ->]]]]]]]].
    rewrite Hn, (scanAttrs_drop f pre a post zeroVars Hk Hp) in Ev.
    pose proof (scanAttrs_sameVar f (pre ++ post) Hno _ Ev) as Hs.
    destruct f; simpl in *; now rewrite <- Hs.
Qed.

Lemma garbled_score_ignored :
  (forall v, attrStep v (mkAttr "" "data-score" "12k") = Ok v)
  /\ tryParseFeedPost garbledPost
     = tryParseFeedPost
         (withAttr garbledPost
            ([mkAttr "" "class" "thing link"; mkAttr "" "data-fullname" "t3_abc"]
             ++ [mkAttr "" "data-url" "https://example.com/x.png";
                 mkAttr "" "data-spoiler" "no"]))
  /\ (forall e, tryParseFeedPost garbledPost = Err e ->
        (e = ErrNotAPost \/ e = ErrPostIsAd)
        /\ exists b,
             In b ([mkAttr "" "class" "thing link";
                    mkAttr "" "data-fullname" "t3_abc"]
                   ++ [mkAttr "" "data-url" "https://example.com/x.png";
                       mkAttr "" "data-spoiler" "no"])
             /\ skipMarker b = true)
  /\ (forall p, tryParseFeedPost garbledPost = Ok p ->
        (forall b,
            In b ([mkAttr "" "class" "thing link";
                   mkAttr "" "data-fullname" "t3_abc"]
                  ++ [mkAttr "" "data-url" "https://example.com/x.png";
                      mkAttr "" "data-spoiler" "no"]) ->
            Key b = fieldKey FieldScore -> parses FieldScore (Val b) = false) ->
        fieldZero FieldScore p).
Proof.
  apply (@malformed_attribute_ignored garbledPost
           [mkAttr "" "class" "thing link"; mkAttr "" "data-fullname" "t3_abc"]
           (mkAttr "" "data-score" "12k")
           [mkAttr "" "data-url" "https://example.com/x.png";
            mkAttr "" "data-spoiler" "no"]
           FieldScore).
  - reflexivity.
  - reflexivity.
  - reflexivity.
Defined.


(* ------------------------------------------------------------------------- *)
(** * The three patterns *)
(* ------------------------------------------------------------------------- *)

Lemma reSearch_iff items s :
  reSearch items s = true <->
  exists a b, s = (a ++ b)%string /\ reMatchHere items b = true.
Proof.
  induction s as [|c s IH]; simpl.
  - rewrite orb_false_r. split.
    + intros H. now exists "", "".
    + intros [a [b [E H]]]. destruct a; [| discriminate]. simpl in E. now subst b.
  - rewrite orb_true_iff, IH. split.
    + intros [H | [a [b [-> H]]]].
      * now exists "", (String c s).
      * now exists (String c a), b.
    + intros [[|x a] [b [E H]]]; simpl in E.
      * left. now subst b.
      * right. injection E as -> ->. now exists a, b.
Qed.

Lemma reMatchHere_literal lit rest s :
  reMatchHere (literal lit ++ rest) s = true <->
  exists b, s = (lit ++ b)%string /\ reMatchHere rest b = true.
Proof.
  revert s. induction lit as [|c lit IH]; intros s.
  - simpl. split; [intros H; now exists s | now intros [b [-> H]]].
  - change (literal (String c lit) ++ rest)
      with ((ReLit c, false) :: (literal lit ++ rest)).
    destruct s as [|x s].
    + split; [discriminate | intros [b [E _]]; discriminate].
    + cbn [reMatchHere reAtomMatches]. rewrite andb_true_iff, IH, Ascii.eqb_eq. split.
      * intros [-> [b [-> H]]]. now exists b.
      * intros [b [E H]]. simpl in E. injection E as -> ->. split; [reflexivity |].
        now exists b.
Qed.

Lemma reMatchHere_any s : reMatchHere [(ReAny, true)] s = true.
Proof. now destruct s. Qed.

Lemma reMatchHere_star_skip a r s :
  reMatchHere r s = true -> reMatchHere ((a, true) :: r) s = true.
Proof. intros H. destruct s; simpl; now rewrite H. Qed.

Lemma reMatchHere_star_inv a r s :
  reMatchHere ((a, true) :: r) s = true ->
  exists x y, s = (x ++ y)%string /\ reMatchHere r y = true.
Proof.
  induction s as [|c s IH].
  - simpl. rewrite orb_false_r. intros H. now exists "", "".
  - intros H. cbn [reMatchHere] in H. apply orb_true_iff in H.
    destruct H as [H | H]; [now exists "", (String c s) |].
    apply andb_true_iff in H. destruct H as [_ H].
    destruct (IH H) as [x [y [-> Hy]]]. now exists (String c x), y.
Qed.

(** ["lit.*"], not anchored, matches the strings that contain [lit]. *)
Lemma MatchString_prefix_pattern pattern lit s :
  reParse pattern = Some (literal lit ++ [(ReAny, true)]) ->
  MatchString pattern s = true <-> contains s lit.
Proof.
  intros E. unfold MatchString, contains. rewrite E, reSearch_iff. split.
  - intros [a [b [-> H]]]. apply reMatchHere_literal in H.
    destruct H as [b' [-> _]]. now exists a, b'.
  - intros [a [b ->]]. exists a, (lit ++ b)%string. split; [reflexivity |].
    apply reMatchHere_literal. exists b. split; [reflexivity |].
    apply reMatchHere_any.
Qed.

(** [".*lit.*"], not anchored, matches the strings that contain [lit]. *)
Lemma MatchString_infix_pattern pattern lit s :
  reParse pattern = Some ((ReAny, true) :: literal lit ++ [(ReAny, true)]) ->
  MatchString pattern s = true <-> contains s lit.
Proof.
  intros E. unfold MatchString, contains. rewrite E, reSearch_iff. split.
  - intros [a [b [-> H]]]. apply reMatchHere_star_inv in H.
    destruct H as [x [y [-> H]]]. apply reMatchHere_literal in H.
    destruct H as [b' [-> _]]. exists (a ++ x)%string, b'.
    now rewrite append_assoc.
  - intros [a [b ->]]. exists a, (lit ++ b)%string. split; [reflexivity |].
    apply reMatchHere_star_skip, reMatchHere_literal. exists b.
    split; [reflexivity | apply reMatchHere_any].
Qed.

Lemma title_pattern s : MatchString "title.*" s = true <-> contains s "title".
Proof. now apply MatchString_prefix_pattern. Qed.

Lemma thumbnail_pattern s :
  MatchString "thumbnail.*" s = true <-> contains s "thumbnail".
Proof. now apply MatchString_prefix_pattern. Qed.

Lemma comments_pattern s :
  MatchString ".*comments.*" s = true <-> contains s "comments".
Proof. now apply MatchString_infix_pattern. Qed.

(* ------------------------------------------------------------------------- *)
(** * More about the search engine *)
(* ------------------------------------------------------------------------- *)

(** ** How much a search visits *)

Section LoopBounds.

Variables criteria recurseIf : SearchCriteria.
Variable loop : list Ptr -> Run.
Hypothesis loop_turns : WorklistLoop criteria recurseIf loop.

(** A loop pops no more nodes than its pending subtrees hold. *)
Lemma popped_bound W : List.length (fst (loop W)) <= weight W.
Proof.
  induction W as [W IH] using worklist_ind.
  destruct (loop_turns W) as [[-> E] | [n [rest [Hin [Hw E]]]]].
  - rewrite E. simpl. lia.
  - rewrite E, Hw. destruct (criteria (node n)); simpl.
    + pose proof (size_pos (node n)). lia.
    + assert (Hlt : weight (rest ++ next recurseIf n) < weight W)
        by (rewrite Hw; apply turn_decreases).
      specialize (IH _ Hlt). rewrite Hw in Hlt. lia.
Qed.

(** A loop that returns nothing has popped every node it could come to. *)
Lemma exhausted_all W :
  snd (loop W) = None ->
  forall w p, In w W -> Visit criteria recurseIf w p -> In p (fst (loop W)).
Proof.
  induction W as [W IH] using worklist_ind. intros Hnone w p Hw Hv.
  destruct (loop_turns W) as [[-> E] | [n [rest [Hin [Hwt E]]]]];
    [contradiction |].
  rewrite E in Hnone |- *. destruct (criteria (node n)) eqn:Hc;
    [discriminate |]. simpl in Hnone |- *.
  assert (Hlt : weight (rest ++ next recurseIf n) < weight W)
    by (rewrite Hwt; apply turn_decreases).
  apply Hin in Hw. destruct Hw as [-> | Hr].
  - apply Visit_inv in Hv. destruct Hv as [-> | [_ [k [Hk Hkp]]]];
      [now left | right].
    apply (IH _ Hlt Hnone k p); [apply in_app_iff; now right | assumption].
  - right. apply (IH _ Hlt Hnone w p); [apply in_app_iff; now left | assumption].
Qed.

End LoopBounds.

Lemma failed_loop_visits_reachable criteria recurseIf loop root p :
  WorklistLoop criteria recurseIf loop ->
  searchResult (loop [rootPtr root]) = Err ErrSearchFailed ->
  In p (fst (loop [rootPtr root])) <-> Reachable recurseIf root p.
Proof.
  intros HL E. unfold searchResult in E.
  destruct (snd (loop [rootPtr root])) eqn:Es; [discriminate |]. split.
  - intros Hp. destruct (popped_Visit HL _ _ Hp) as [w [[<- | []] Hv]].
    eapply Visit_Reachable. exact Hv.
  - intros Hr. eapply (exhausted_all HL); [exact Es | now left |].
    apply Reachable_Visit; [| exact Hr].
    intros q Hq. eapply (exhausted_none HL); [exact Es | now left | exact Hq].
Qed.

(** X1: a search that fails has visited exactly the nodes that the descend
    policy lets it reach, so the two searches, which fail together, have
    visited the same nodes. *)
Theorem failed_search_visits_reachable root criteria recurseIf p :
  BreadthFirstSearch root criteria recurseIf = Err ErrSearchFailed ->
  DepthFirstSearch root criteria recurseIf = Err ErrSearchFailed
  /\ (In p (bfsVisited root criteria recurseIf) <-> Reachable recurseIf root p)
  /\ (In p (dfsVisited root criteria recurseIf) <-> Reachable recurseIf root p).
Proof.
  intros Eb.
  assert (Ed : DepthFirstSearch root criteria recurseIf = Err ErrSearchFailed).
  { unfold BreadthFirstSearch, DepthFirstSearch in *.
    destruct (search_cases root (bfs_worklist criteria recurseIf))
      as [[_ Hb] | [b [Eb' _]]]; [| congruence].
    destruct (search_cases root (dfs_worklist criteria recurseIf))
      as [[Ed _] | [d [_ [Hcd [_ Hvd]]]]]; [exact Ed |].
    apply Visit_Reachable in Hvd. rewrite (Hb _ Hvd) in Hcd. discriminate. }
  split; [exact Ed |]. split.
  - exact (failed_loop_visits_reachable root p (bfs_worklist criteria recurseIf) Eb).
  - exact (failed_loop_visits_reachable root p (dfs_worklist criteria recurseIf) Ed).
Qed.

Lemma failed_search_of_barePost :
  DepthFirstSearch barePost (IsTag AtomUl) RecurseAlways = Err ErrSearchFailed
  /\ (In (mkPtr [0; 0] (text "text"))
         (bfsVisited barePost (IsTag AtomUl) RecurseAlways)
      <-> Reachable RecurseAlways barePost (mkPtr [0; 0] (text "text")))
  /\ (In (mkPtr [0; 0] (text "text"))
         (dfsVisited barePost (IsTag AtomUl) RecurseAlways)
      <-> Reachable RecurseAlways barePost (mkPtr [0; 0] (text "text"))).
Proof.
  apply (@failed_search_visits_reachable barePost (IsTag AtomUl) RecurseAlways).
  reflexivity.
Defined.

(** X2: a search pops at most as many nodes as the tree under its root
    has. *)
Theorem search_visits_bounded root criteria recurseIf :
  List.length (bfsVisited root criteria recurseIf) <= size root
  /\ List.length (dfsVisited root criteria recurseIf) <= size root.
Proof.
  unfold bfsVisited, dfsVisited. split.
  - pose proof (popped_bound (bfs_worklist criteria recurseIf) [rootPtr root]) as H.
    simpl in H. lia.
  - pose proof (popped_bound (dfs_worklist criteria recurseIf) [rootPtr root]) as H.
    simpl in H. lia.
Qed.

(** ** The order of the breadth-first search *)

Lemma bfsAll_nil recurseIf : bfsAll recurseIf [] = [].
Proof. unfold bfsAll. now rewrite bfs_loop_nil. Qed.

Lemma bfsAll_cons recurseIf x rest :
  bfsAll recurseIf (x :: rest) = x :: bfsAll recurseIf (rest ++ next recurseIf x).
Proof. unfold bfsAll. now rewrite bfs_loop_cons. Qed.

(** The queue loop pops the nodes in the order it pops them when nothing
    matches, and stops at the first match. *)
Lemma bfs_loop_bfsAll criteria recurseIf W :
  bfs_loop criteria recurseIf W =
  (upToFirst criteria (bfsAll recurseIf W),
   find (matches criteria) (bfsAll recurseIf W)).
Proof.
  induction W as [W IH] using worklist_ind.
  destruct W as [|n rest]; [now rewrite bfsAll_nil, bfs_loop_nil |].
  rewrite bfs_loop_cons, bfsAll_cons. simpl. unfold matches at 1 2.
  destruct (criteria (node n)); [reflexivity |].
  rewrite IH; [reflexivity |].
  rewrite weight_app. simpl. pose proof (weight_next recurseIf n). lia.
Qed.

(** Once the queue has gone through [A], what [A] let in is behind what was
    behind [A]. *)
Lemma bfsAll_app recurseIf A B :
  bfsAll recurseIf (A ++ B) = A ++ bfsAll recurseIf (B ++ flat_map (next recurseIf) A).
Proof.
  revert B. induction A as [|a A IH]; intros B; simpl.
  - now rewrite app_nil_r.
  - rewrite bfsAll_cons, <- app_assoc, IH, <- app_assoc. reflexivity.
Qed.

Lemma weight_flat_next_le recurseIf W :
  weight (flat_map (next recurseIf) W) <= weight W.
Proof.
  induction W as [|x W IH]; simpl; [lia |].
  rewrite weight_app. pose proof (weight_next recurseIf x). lia.
Qed.

Lemma weight_flat_next_lt recurseIf W :
  W <> [] -> weight (flat_map (next recurseIf) W) < weight W.
Proof.
  destruct W as [|x W]; [congruence |]. intros _. simpl.
  rewrite weight_app. pose proof (weight_next recurseIf x).
  pose proof (weight_flat_next_le recurseIf W). lia.
Qed.

Lemma weight_zero W : weight W = 0 -> W = [].
Proof.
  destruct W as [|x W]; [reflexivity |]. simpl.
  pose proof (size_pos (node x)). lia.
Qed.

Lemma bfsAll_levels recurseIf f W :
  weight W <= f -> bfsAll recurseIf W = levelOrder recurseIf f W.
Proof.
  revert W. induction f as [|f IH]; intros W Hw.
  - rewrite (weight_zero W) by lia. apply bfsAll_nil.
  - simpl. rewrite <- (app_nil_r W) at 1. rewrite bfsAll_app. simpl.
    f_equal. apply IH. destruct W as [|x W']; [simpl; lia |].
    assert (H : x :: W' <> []) by discriminate.
    pose proof (weight_flat_next_lt recurseIf H). lia.
Qed.

(** X3: [BreadthFirstSearch] visits the tree level by level, each level from
    left to right, up to the first match in that order, which it returns; it
    fails when that order has no match. *)
Theorem bfs_visits_level_order root criteria recurseIf :
  bfsVisited root criteria recurseIf
  = upToFirst criteria (levelOrder recurseIf (size root) [rootPtr root])
  /\ BreadthFirstSearch root criteria recurseIf
     = firstMatch criteria (levelOrder recurseIf (size root) [rootPtr root]).
Proof.
  unfold bfsVisited, BreadthFirstSearch, searchResult, firstMatch.
  rewrite bfs_loop_bfsAll, (@bfsAll_levels recurseIf (size root)); [| simpl; lia].
  split; reflexivity.
Qed.

Lemma find_app {A} (f : A -> bool) (l1 l2 : list A) :
  find f (l1 ++ l2) =
  match find f l1 with
  | Some x => Some x
  | None => find f l2
  end.
Proof.
  induction l1 as [|a l1 IH]; simpl; [reflexivity |]. now destruct (f a).
Qed.

Lemma depth_next recurseIf p k :
  In k (next recurseIf p) -> depth k = S (depth p).
Proof.
  intros Hk. apply In_next in Hk. destruct Hk as [_ Hk]. apply In_kids in Hk.
  destruct Hk as [i [c [_ ->]]]. unfold depth. simpl.
  rewrite length_app. simpl. lia.
Qed.

Lemma depth_flat_next recurseIf W d :
  (forall w, In w W -> depth w = d) ->
  forall k, In k (flat_map (next recurseIf) W) -> depth k = S d.
Proof.
  intros HW k Hk. apply in_flat_map in Hk. destruct Hk as [w [Hw Hk]].
  rewrite (depth_next _ _ _ Hk). f_equal. now apply HW.
Qed.

Lemma descend_succ recurseIf k W :
  descend recurseIf (S k) W = flat_map (next recurseIf) (descend recurseIf k W).
Proof.
  revert W. induction k as [|k IH]; intros W; [reflexivity |].
  change (descend recurseIf (S (S k)) W)
    with (descend recurseIf (S k) (flat_map (next recurseIf) W)).
  rewrite IH. reflexivity.
Qed.

Lemma Reachable_descend recurseIf root q :
  Reachable recurseIf root q ->
  In q (descend recurseIf (depth q) [rootPtr root]).
Proof.
  intros H. induction H as [|p k Hp IH Hk]; [now left |].
  rewrite (depth_next _ _ _ Hk), descend_succ. apply in_flat_map.
  exists p. auto.
Qed.

(** The first match of the level order is at the least depth at which there
    is a match. *)
Lemma levelOrder_shallowest criteria recurseIf f :
  forall W d p,
    (forall w, In w W -> depth w = d) ->
    find (matches criteria) (levelOrder recurseIf f W) = Some p ->
    forall k q, In q (descend recurseIf k W) -> criteria (node q) = true ->
                depth p <= d + k.
Proof.
  induction f as [|f IH]; intros W d p HW Hp k q Hq Hc; [discriminate |].
  simpl in Hp. rewrite find_app in Hp.
  destruct (find (matches criteria) W) as [p'|] eqn:EW.
  - injection Hp as <-. apply find_some in EW. destruct EW as [Hin _].
    rewrite (HW _ Hin). lia.
  - destruct k as [|k].
    + simpl in Hq. pose proof (find_none _ _ EW _ Hq) as Hn.
      unfold matches in Hn. congruence.
    + simpl in Hq.
      pose proof (IH _ (S d) p (depth_flat_next recurseIf W HW) Hp k q Hq Hc).
      lia.
Qed.

Lemma levelOrder_root_shallowest criteria recurseIf root p q :
  find (matches criteria) (levelOrder recurseIf (size root) [rootPtr root]) = Some p ->
  Reachable recurseIf root q -> criteria (node q) = true ->
  depth p <= depth q.
Proof.
  intros E Hr Hc. change (depth p <= 0 + depth q).
  eapply levelOrder_shallowest; [| exact E | | exact Hc].
  - intros w [<- | []]. reflexivity.
  - now apply Reachable_descend.
Qed.

Lemma bfs_as_levels root criteria recurseIf :
  BreadthFirstSearch root criteria recurseIf
  = firstMatch criteria (levelOrder recurseIf (size root) [rootPtr root]).
Proof.
  unfold BreadthFirstSearch, searchResult, firstMatch.
  rewrite bfs_loop_bfsAll, (@bfsAll_levels recurseIf (size root)); [| simpl; lia].
  reflexivity.
Qed.

(** X4: the node [BreadthFirstSearch] returns is a shallowest match: no
    matching node that the descend policy lets the search reach is nearer to
    the root. *)
Theorem bfs_returns_shallowest root criteria recurseIf p q :
  BreadthFirstSearch root criteria recurseIf = Ok p ->
  Reachable recurseIf root q ->
  criteria (node q) = true ->
  List.length (path p) <= List.length (path q).
Proof.
  rewrite bfs_as_levels. unfold firstMatch.
  destruct (find _ _) as [p'|] eqn:E; [| discriminate].
  intros [= ->] Hr Hc. eapply levelOrder_root_shallowest; eassumption.
Qed.

Lemma bfs_shallowest_in_imagePost :
  List.length (path (mkPtr [0] (thumbnailOf "//b.thumbs.redditmedia.com/x.jpg")))
  <= List.length
       (path (mkPtr [1; 0; 0; 0]
                (el AtomA "a" [("class", "title may-blank"); ("href", "/x")]
                    [text "A picture"]))).
Proof.
  apply (@bfs_returns_shallowest imagePost (IsTag AtomA) RecurseAlways).
  - reflexivity.
  - apply (@reach_child RecurseAlways imagePost
             (mkPtr [1; 0; 0]
                (el AtomP "p" [("class", "title")]
                    [el AtomA "a" [("class", "title may-blank"); ("href", "/x")]
                        [text "A picture"]]))); [| simpl; tauto].
    apply (@reach_child RecurseAlways imagePost
             (mkPtr [1; 0] (nth 0 (Children (entryOf [text "A picture"])) imagePost)));
      [| simpl; tauto].
    apply (@reach_child RecurseAlways imagePost
             (mkPtr [1] (entryOf [text "A picture"]))); [| simpl; tauto].
    apply (@reach_child RecurseAlways imagePost (rootPtr imagePost));
      [apply reach_root | simpl; tauto].
  - reflexivity.
Defined.

(** ** Children and attributes *)

Lemma nextSiblings_nth c rest i :
  nextSiblings c rest i =
  match nth_error (c :: rest) i with
  | Some x => Value x
  | None => Failure "child index out of bounds"
  end.
Proof.
  revert c rest. induction i as [|i IH]; intros c rest; [reflexivity |].
  destruct rest as [|c' rest']; simpl; [now destruct i | apply IH].
Qed.

Lemma NthChild_nth n0 n :
  NthChild n0 n =
  match nth_error (Children n0) (Z.to_nat n) with
  | Some x => Value x
  | None => Failure "child index out of bounds"
  end.
Proof.
  unfold NthChild. destruct (Children n0) as [|c rest];
    [now destruct (Z.to_nat n) | apply nextSiblings_nth].
Qed.

(** X5: [NthChild] returns the child at index [n] counted from zero, and the
    error exactly when the node has no more than [n] children; a negative
    [n] is not an error: it returns the first child, as 0 does. *)
Theorem NthChild_bounds n0 n :
  (forall c, NthChild n0 n = Value c <->
             nth_error (Children n0) (Z.to_nat n) = Some c)
  /\ (NthChild n0 n = Failure "child index out of bounds" <->
      (Z.of_nat (List.length (Children n0)) <= Z.max 0 n)%Z)
  /\ ((n < 0)%Z -> NthChild n0 n = NthChild n0 0).
Proof.
  rewrite !NthChild_nth. split; [| split].
  - intros c. destruct (nth_error (Children n0) (Z.to_nat n)) as [x|];
      split; congruence.
  - destruct (nth_error (Children n0) (Z.to_nat n)) as [x|] eqn:E.
    + split; [discriminate |]. intros H.
      assert (Hlt : Z.to_nat n < List.length (Children n0))
        by (apply nth_error_Some; congruence).
      lia.
    + split; [| reflexivity]. intros _. apply nth_error_None in E. lia.
  - intros Hn. now replace (Z.to_nat n) with (Z.to_nat 0) by lia.
Qed.

Lemma getAttr_found attrs key :
  snd (getAttr attrs key) = existsb (fun a => Key a =? key) attrs.
Proof.
  induction attrs as [|a attrs IH]; simpl; [reflexivity |].
  now destruct (Key a =? key).
Qed.

(** X6: [GetAttribute] reports an attribute exactly when [HasAttribute] holds;
    the value it returns is one [HasAttributeWithValue] accepts, and when it
    reports none the value is empty and [HasAttributeWithValue] accepts no
    value. *)
Theorem GetAttribute_agrees n key :
  snd (GetAttribute n key) = HasAttribute key n
  /\ (snd (GetAttribute n key) = true ->
      HasAttributeWithValue key (fst (GetAttribute n key)) n = true)
  /\ (snd (GetAttribute n key) = false ->
      fst (GetAttribute n key) = ""
      /\ forall value, HasAttributeWithValue key value n = false).
Proof.
  unfold GetAttribute, HasAttribute, HasAttributeWithValue.
  split; [apply getAttr_found |].
  induction (Attr n) as [|a attrs [IH1 IH2]]; simpl.
  - split; [discriminate | auto].
  - destruct (Key a =? key) eqn:E; simpl.
    + split; [| discriminate]. intros _. now rewrite String.eqb_refl.
    + split.
      * intros H. now apply IH1.
      * intros H. destruct (IH2 H) as [H1 H2]. auto.
Qed.

(** X7: the combinators obey De Morgan's laws, [And] of nothing accepts
    every node and [Or] of nothing accepts none, and [And] and [Or] of a
    concatenation are those of the parts. *)
Theorem criteria_algebra (cs ds : list SearchCriteria) (n : Node) :
  Not (And cs) n = Or (map Not cs) n
  /\ Not (Or cs) n = And (map Not cs) n
  /\ And [] n = true
  /\ Or [] n = false
  /\ And (cs ++ ds) n = And [And cs; And ds] n
  /\ Or (cs ++ ds) n = Or [Or cs; Or ds] n.
Proof.
  unfold Not, And, Or. repeat split.
  - induction cs as [|c cs IH]; simpl; [reflexivity |].
    now rewrite negb_andb, IH.
  - induction cs as [|c cs IH]; simpl; [reflexivity |].
    now rewrite negb_orb, IH.
  - rewrite forallb_app. simpl. now rewrite andb_true_r.
  - rewrite existsb_app. simpl. now rewrite orb_false_r.
Qed.

(** ** The container *)

(** X8: the container that [getSiteTable] returns is a node of the document,
    a [div] with an attribute [id="siteTable"]; none of its ancestors is a
    [head] element; and no such [div] that can be reached without entering a
    [head] is nearer to the root. *)
Theorem getSiteTable_found doc st :
  getSiteTable doc = Ok st ->
  node_at doc (path st) = Some (node st)
  /\ IsTag AtomDiv (node st) = true
  /\ HasAttributeWithValue "id" "siteTable" (node st) = true
  /\ (forall q i t m, path st = q ++ i :: t -> node_at doc q = Some m ->
                      IsTag AtomHead m = false)
  /\ (forall q, Reachable (Not (IsTag AtomHead)) doc q ->
                siteTableCriteria (node q) = true ->
                List.length (path st) <= List.length (path q)).
Proof.
  unfold getSiteTable.
  destruct (BreadthFirstSearch doc siteTableCriteria (Not (IsTag AtomHead)))
    as [p|e|k] eqn:Eb; try discriminate.
  intros [= ->]. pose proof Eb as Eb'. unfold BreadthFirstSearch in Eb'.
  destruct (search_cases doc (bfs_worklist siteTableCriteria (Not (IsTag AtomHead))))
    as [[E _] | [p [E [Hc [_ Hv]]]]]; [congruence |].
  rewrite E in Eb'. injection Eb' as ->.
  split; [apply (Reachable_node_at (Visit_Reachable Hv)) |].
  unfold siteTableCriteria, And in Hc. simpl in Hc.
  rewrite andb_true_r in Hc. apply andb_true_iff in Hc. destruct Hc as [Hd Hi].
  split; [exact Hd |]. split; [exact Hi |]. split.
  - intros q i t m Hp Hm.
    destruct (Visit_ancestor Hv q i t Hp) as [m' [Hm' [_ He]]].
    simpl in Hm'. rewrite Hm in Hm'. injection Hm' as <-.
    unfold expands, Not in He. apply orb_true_iff in He.
    destruct He as [He | He]; [| now apply negb_true_iff in He].
    unfold IsTag. destruct (Type_ m); try discriminate. reflexivity.
  - intros q Hq Hcq. rewrite bfs_as_levels in Eb. unfold firstMatch in Eb.
    destruct (find _ _) as [p'|] eqn:Ef; [| discriminate].
    injection Eb as ->. eapply levelOrder_root_shallowest; eassumption.
Qed.

Lemma container_of_threeChildren :
  node_at threeChildren (path containerOfThreeChildren)
  = Some (node containerOfThreeChildren)
  /\ IsTag AtomDiv (node containerOfThreeChildren) = true
  /\ HasAttributeWithValue "id" "siteTable" (node containerOfThreeChildren) = true
  /\ (forall q i t m,
        path containerOfThreeChildren = q ++ i :: t ->
        node_at threeChildren q = Some m -> IsTag AtomHead m = false)
  /\ (forall q, Reachable (Not (IsTag AtomHead)) threeChildren q ->
                siteTableCriteria (node q) = true ->
                List.length (path containerOfThreeChildren)
                <= List.length (path q)).
Proof.
  apply (@getSiteTable_found threeChildren containerOfThreeChildren).
  reflexivity.
Defined.

(* ------------------------------------------------------------------------- *)
(** * More about the parser *)
(* ------------------------------------------------------------------------- *)

(** ** Skipped children *)

Lemma scanAttrs_Ok_no_marker attrs :
  forall v v', scanAttrs v attrs = Ok v' ->
  forall a, In a attrs -> skipMarker a = false.
Proof.
  induction attrs as [|b attrs IH]; intros v v' H a Ha; [contradiction |].
  simpl in H. destruct (attrStep_outcomes v b) as [[Hs [v1 E]] | [_ [E | E]]];
    rewrite E in H; simpl in H; try discriminate.
  destruct Ha as [<- | Ha]; [exact Hs | exact (IH _ _ H _ Ha)].
Qed.

(** X9: a child with a spacer class or an advertisement marker among its
    attributes, wherever it stands and whatever else the child holds, yields
    one of the two skip errors, never a record and never a panic, and the
    page loop goes on without it. *)
Theorem marked_child_is_skipped n a :
  In a (Attr n) ->
  skipMarker a = true ->
  (tryParseFeedPost n = Err ErrNotAPost \/ tryParseFeedPost n = Err ErrPostIsAd)
  /\ forall posts rest, collectPosts posts (n :: rest) = collectPosts posts rest.
Proof.
  intros Ha Hm.
  assert (E : tryParseFeedPost n = Err ErrNotAPost
              \/ tryParseFeedPost n = Err ErrPostIsAd).
  { unfold tryParseFeedPost.
    destruct (scanAttrs_outcomes (Attr n) zeroVars) as [[v Ev] | [[Ev | Ev] _]].
    - rewrite (scanAttrs_Ok_no_marker _ _ Ev a Ha) in Hm. discriminate.
    - left. now rewrite Ev.
    - right. now rewrite Ev. }
  split; [exact E |]. intros posts rest. simpl.
  destruct (negb (NodeType_eqb (Type_ n) ElementNode)); [reflexivity |].
  destruct E as [-> | ->]; reflexivity.
Qed.

Lemma advertisement_with_broken_title_is_skipped :
  (tryParseFeedPost
     (withAttr untitledPost
        (Attr untitledPost ++ [mkAttr "" "data-adserver-impression-id" "1"]))
   = Err ErrNotAPost
   \/ tryParseFeedPost
        (withAttr untitledPost
           (Attr untitledPost ++ [mkAttr "" "data-adserver-impression-id" "1"]))
      = Err ErrPostIsAd)
  /\ forall posts rest,
       collectPosts posts
         (withAttr untitledPost
            (Attr untitledPost ++ [mkAttr "" "data-adserver-impression-id" "1"])
          :: rest)
       = collectPosts posts rest.
Proof.
  apply (@marked_child_is_skipped
           (withAttr untitledPost
              (Attr untitledPost ++ [mkAttr "" "data-adserver-impression-id" "1"]))
           (mkAttr "" "data-adserver-impression-id" "1")).
  - simpl. tauto.
  - reflexivity.
Defined.

(** ** Repeated attributes *)

Ltac by_key a :=
  repeat match goal with
    | |- context [(Key a =? ?lit)%string] =>
        let E := fresh "E" in
        destruct (Key a =? lit)%string eqn:E;
        [apply String.eqb_eq in E; rewrite E; cbn |]
    end.

Lemma reads_step v a v' : attrStep v a = Ok v' -> reads v v' [a].
Proof.
  unfold reads, attrStep, lastParsed. destruct v as [i o sr ts sc cc pl sp ns].
  cbn [fold_left id op subreddit postLink timestamp score commentCount
       isSpoiler isNSFW].
  by_key a;
    repeat (cbn [option_map];
            match goal with
            | |- context [ParseInt ?x] => destruct (ParseInt x) eqn:?
            | |- context [Atoi ?x] => destruct (Atoi x) eqn:?
            | |- context [ParseBool ?x] => destruct (ParseBool x) eqn:?
            | |- context [if ?b then _ else _] => destruct b eqn:?
            end);
    try discriminate; intros [= <-]; cbn; repeat split; reflexivity.
Qed.

Lemma lastParsed_app {A} (parse : string -> option A) key d l1 l2 :
  lastParsed parse key d (l1 ++ l2)
  = lastParsed parse key (lastParsed parse key d l1) l2.
Proof. unfold lastParsed. apply fold_left_app. Qed.

Lemma reads_scan attrs :
  forall v v', scanAttrs v attrs = Ok v' -> reads v v' attrs.
Proof.
  induction attrs as [|a attrs IH]; intros v v' H; simpl in H.
  - injection H as <-. unfold reads. repeat split.
  - destruct (attrStep v a) as [v1| |] eqn:E; simpl in H; try discriminate.
    apply reads_step in E. apply IH in H. unfold reads in *.
    change (a :: attrs) with ([a] ++ attrs). rewrite !lastParsed_app.
    destruct E as (<- & <- & <- & <- & <- & <- & <- & <- & <-).
    exact H.
Qed.

Lemma record_reads n p :
  tryParseFeedPost n = Ok p ->
  exists v, reads zeroVars v (Attr n)
            /\ ID p = id v /\ OP p = op v /\ Subreddit p = subreddit v
            /\ PostLink p = postLink v /\ Timestamp p = timestamp v
            /\ Score p = score v /\ CommentCount p = commentCount v
            /\ IsSpoiler p = isSpoiler v /\ IsNSFW p = isNSFW v.
Proof.
  intros H. destruct (tryParseFeedPost_Ok _ H) as [v [t [th [cl [Ev [_ [_ [_ ->]]]]]]]].
  exists v. split; [now apply reads_scan |]. repeat split.
Qed.

(** X10: for the four attributes read as they are (identifier, author,
    subreddit, link), the record holds the value of the last attribute with
    the key, and the empty string when there is none: when a key is repeated
    the last one wins. *)
Theorem last_attribute_wins n p :
  tryParseFeedPost n = Ok p ->
  ID p = lastValue "data-fullname" (Attr n)
  /\ OP p = lastValue "data-author" (Attr n)
  /\ Subreddit p = lastValue "data-subreddit" (Attr n)
  /\ PostLink p = lastValue "data-url" (Attr n).
Proof.
  intros H. destruct (record_reads _ H)
    as (v & (R1 & R2 & R3 & R4 & _) & -> & -> & -> & -> & _).
  unfold lastValue. auto.
Qed.

(** [<div data-fullname="t3_a" data-url="/r/x" data-fullname="t3_b"></div>] *)
Lemma last_fullname_wins :
  ID (mkFeedPost "t3_b" FeedPostTypeText "" "" "" zeroTime 0 0 "" "/r/x" ""
                 false false)
  = lastValue "data-fullname"
      (Attr (el AtomDiv "div"
               [("data-fullname", "t3_a"); ("data-url", "/r/x");
                ("data-fullname", "t3_b")] []))
  /\ OP (mkFeedPost "t3_b" FeedPostTypeText "" "" "" zeroTime 0 0 "" "/r/x" ""
                    false false)
     = lastValue "data-author"
         (Attr (el AtomDiv "div"
                  [("data-fullname", "t3_a"); ("data-url", "/r/x");
                   ("data-fullname", "t3_b")] []))
  /\ Subreddit (mkFeedPost "t3_b" FeedPostTypeText "" "" "" zeroTime 0 0 "" "/r/x"
                           "" false false)
     = lastValue "data-subreddit"
         (Attr (el AtomDiv "div"
                  [("data-fullname", "t3_a"); ("data-url", "/r/x");
                   ("data-fullname", "t3_b")] []))
  /\ PostLink (mkFeedPost "t3_b" FeedPostTypeText "" "" "" zeroTime 0 0 "" "/r/x"
                          "" false false)
     = lastValue "data-url"
         (Attr (el AtomDiv "div"
                  [("data-fullname", "t3_a"); ("data-url", "/r/x");
                   ("data-fullname", "t3_b")] [])).
Proof.
  apply (@last_attribute_wins
           (el AtomDiv "div"
              [("data-fullname", "t3_a"); ("data-url", "/r/x");
               ("data-fullname", "t3_b")] [])).
  reflexivity.
Defined.

(** X11: for the five attributes that are parsed, the record holds the value
    of the last attribute with the key that parses, and the zero value when
    none does. *)
Theorem last_parsed_attribute_wins n p :
  tryParseFeedPost n = Ok p ->
  Timestamp p
  = lastParsed (fun s => option_map UnixMilli (ParseInt s)) "data-timestamp"
               zeroTime (Attr n)
  /\ Score p = lastParsed Atoi "data-score" 0%Z (Attr n)
  /\ CommentCount p = lastParsed Atoi "data-comments-count" 0%Z (Attr n)
  /\ IsSpoiler p = lastParsed ParseBool "data-spoiler" false (Attr n)
  /\ IsNSFW p = lastParsed ParseBool "data-nsfw" false (Attr n).
Proof.
  intros H. destruct (record_reads _ H)
    as (v & (_ & _ & _ & _ & R5 & R6 & R7 & R8 & R9)
        & _ & _ & _ & _ & -> & -> & -> & -> & ->).
  auto.
Qed.

Lemma last_parsed_of_imagePost :
  Timestamp imageRecord
  = lastParsed (fun s => option_map UnixMilli (ParseInt s)) "data-timestamp"
               zeroTime (Attr imagePost)
  /\ Score imageRecord = lastParsed Atoi "data-score" 0%Z (Attr imagePost)
  /\ CommentCount imageRecord
     = lastParsed Atoi "data-comments-count" 0%Z (Attr imagePost)
  /\ IsSpoiler imageRecord = lastParsed ParseBool "data-spoiler" false (Attr imagePost)
  /\ IsNSFW imageRecord = lastParsed ParseBool "data-nsfw" false (Attr imagePost).
Proof. apply (@last_parsed_attribute_wins imagePost imageRecord). reflexivity. Defined.

(** ** The thumbnail link of a record *)

(** X12: in every record that extraction builds, the thumbnail link is
    either empty or begins with ["https://"]. *)
Theorem thumbnail_link_empty_or_https n p :
  tryParseFeedPost n = Ok p ->
  ThumbnailLink p = "" \/ beginsWith (ThumbnailLink p) "https://".
Proof.
  intros H. destruct (tryParseFeedPost_Ok _ H) as [v [t [th [cl [_ [_ [Eth [_ ->]]]]]]]].
  simpl. unfold findThumbnailLink in Eth.
  destruct (BreadthFirstSearch n thumbnailCriteria RecurseAlways) as [tn|e|k];
    simpl in Eth; [| left; congruence | discriminate].
  destruct (BreadthFirstSearch (node tn) imgCriteria RecurseAlways) as [im|e|k];
    simpl in Eth; [| left; congruence | discriminate].
  right. injection Eth as <-. eexists. reflexivity.
Qed.

Lemma thumbnail_link_of_imagePost :
  ThumbnailLink imageRecord = ""
  \/ beginsWith (ThumbnailLink imageRecord) "https://".
Proof. apply (@thumbnail_link_empty_or_https imagePost imageRecord). reflexivity. Defined.

(** ** The posts of a page *)

Lemma recordsOf_short c : List.length (recordsOf c) <= 1.
Proof.
  unfold recordsOf. destruct (NodeType_eqb _ _); [| simpl; lia].
  destruct (tryParseFeedPost c); simpl; lia.
Qed.

Lemma flat_map_recordsOf_short cs :
  List.length (flat_map recordsOf cs) <= List.length cs.
Proof.
  induction cs as [|c cs IH]; simpl; [lia |].
  rewrite length_app. pose proof (recordsOf_short c). lia.
Qed.

(** X13: the posts of a page are the records of the children of the
    container, in the order of the children: an element child whose
    extraction succeeds gives its record, every other child gives nothing;
    so there are no more posts than children. *)
Theorem getFeedPosts_in_page_order doc posts :
  getFeedPosts doc = Ok posts ->
  exists siteTable,
    getSiteTable doc = Ok siteTable
    /\ posts = flat_map recordsOf (Children (node siteTable))
    /\ List.length posts <= List.length (Children (node siteTable)).
Proof.
  unfold getFeedPosts, bind.
  destruct (getSiteTable doc) as [st|e|k]; try discriminate.
  intros H. apply collectPosts_records in H. simpl in H. subst posts.
  exists st. split; [reflexivity |]. split; [reflexivity |].
  apply flat_map_recordsOf_short.
Qed.

Lemma posts_of_threeChildren :
  exists siteTable,
    getSiteTable threeChildren = Ok siteTable
    /\ [mkFeedPost "t3_abc" FeedPostTypeImage "" "" "" (UnixMilli 1700000000000)
                   0 0 "" "https://example.com/x.png" "" false false;
        mkFeedPost "t3_def" FeedPostTypeText "" "" "" zeroTime
                   0 0 "" "/r/foo/comments/def" "" false false]
       = flat_map recordsOf (Children (node siteTable))
    /\ List.length
         [mkFeedPost "t3_abc" FeedPostTypeImage "" "" "" (UnixMilli 1700000000000)
                     0 0 "" "https://example.com/x.png" "" false false;
          mkFeedPost "t3_def" FeedPostTypeText "" "" "" zeroTime
                     0 0 "" "/r/foo/comments/def" "" false false]
       <= List.length (Children (node siteTable)).
Proof. apply (@getFeedPosts_in_page_order threeChildren). reflexivity. Defined.

(** ** The URL of a feed *)

Lemma append_not_empty (a : string) (c : ascii) (b : string) :
  ((a ++ String c b) =? "")%string = false.
Proof. now destruct a. Qed.

Lemma pair_not_empty (p q y : string) :
  ((p ++ q ++ "=" ++ y) =? "")%string = false.
Proof. now destruct p, q. Qed.

(** [Encode] of values with one value for each key. *)
Lemma Values_Encode_from buf (kvs : list (string * string)) :
  fold_left
    (fun buf kv =>
       fold_left
         (fun buf value =>
            ((if buf =? "" then "" else buf ++ "&")
               ++ QueryEscape (fst kv) ++ "=" ++ QueryEscape value)%string)
         (snd kv) buf)
    (map (fun kv => (fst kv, [snd kv])) kvs) buf
  = match kvs with
    | [] => buf
    | _ =>
        ((if buf =? "" then "" else buf ++ "&")
           ++ String.concat "&"
                (map (fun kv => QueryEscape (fst kv) ++ "=" ++ QueryEscape (snd kv))
                     kvs))%string
    end.
Proof.
  revert buf. induction kvs as [|kv kvs IH]; intros buf; [reflexivity |].
  cbn [map fold_left fst snd]. rewrite IH. destruct kvs as [|kv' kvs]; [reflexivity |].
  cbn [map String.concat]. rewrite pair_not_empty, !append_assoc. reflexivity.
Qed.

Lemma Values_Encode_pairs (kvs : list (string * string)) :
  Values_Encode (map (fun kv => (fst kv, [snd kv])) kvs)
  = String.concat "&"
      (map (fun kv => QueryEscape (fst kv) ++ "=" ++ QueryEscape (snd kv))%string kvs).
Proof.
  unfold Values_Encode. rewrite Values_Encode_from. now destruct kvs.
Qed.

Lemma QueryEscape_keys :
  QueryEscape "after" = "after" /\ QueryEscape "count" = "count"
  /\ QueryEscape "sort" = "sort".
Proof. repeat split; vm_compute; reflexivity. Qed.

(** The values [constructURL] has set, sorted by key. *)
Lemma constructURL_values (after count sort : option string) :
  (let values : Values := [] in
   let values :=
     match sort with Some x => Values_Set values "sort" x | None => values end in
   let values :=
     match count with Some y => Values_Set values "count" y | None => values end in
   match after with Some l => Values_Set values "after" l | None => values end)
  = map (fun kv => (fst kv, [snd kv]))
        ((match after with Some l => [("after", l)] | None => [] end)
         ++ (match count with Some y => [("count", y)] | None => [] end)
         ++ (match sort with Some x => [("sort", x)] | None => [] end)).
Proof. destruct after, count, sort; vm_compute; reflexivity. Qed.

Lemma constructURL_params opts :
  constructURL opts
  = (urlPath opts
     ++ match queryParams opts with
        | [] => ""
        | _ => "/?" ++ String.concat "&" (queryParams opts)
        end)%string.
Proof.
  destruct opts as [base sr sm cnt lp hd].
  unfold constructURL, queryParams, urlPath. cbn [BaseURL optSubreddit
    optSortMethod Count LastPostID].
  pose proof (constructURL_values lp
                (if (cnt =? 0)%Z then None else Some (sprintd cnt))
                (if (sm =? SortMethodDefault)%Z then None else Some (URLString sm)))
    as Hv.
  cbv zeta in Hv |- *.
  destruct QueryEscape_keys as (Ka & Kc & Ks).
  destruct (sm =? SortMethodDefault)%Z, (cnt =? 0)%Z, lp as [l|];
    rewrite Hv, Values_Encode_pairs; cbn [map app fst snd String.concat];
    rewrite ?Ka, ?Kc, ?Ks; try reflexivity;
    cbn [append]; rewrite ?append_not_empty;
    try reflexivity.
  cbn. now rewrite append_nil_r.
Qed.

(** X14: [constructURL] is the base, then ["/r/"] and the subreddit if there
    is one, then, if anything is asked for, ["/?"] and the parameters joined
    by ["&"], always in the order [after], [count], [sort]; with nothing to
    ask for there is no ["/?"], and the default sort method and a zero count
    are never written. *)
Theorem constructURL_shape opts :
  constructURL opts
  = (urlPath opts
     ++ match queryParams opts with
        | [] => ""
        | _ => "/?" ++ String.concat "&" (queryParams opts)
        end)%string
  /\ (queryParams opts = [] <->
      LastPostID opts = None /\ Count opts = 0%Z
      /\ optSortMethod opts = SortMethodDefault).
Proof.
  split; [apply constructURL_params |].
  unfold queryParams. destruct (LastPostID opts) as [l|].
  - split; [discriminate | intros [H _]; discriminate].
  - destruct (Z.eqb_spec (Count opts) 0) as [Hc | Hc].
    + destruct (Z.eqb_spec (optSortMethod opts) SortMethodDefault) as [Hs | Hs].
      * simpl. tauto.
      * simpl. split; [discriminate | tauto].
    + simpl. split; [discriminate | tauto].
Qed.

(** X15: when [Feed] returns a feed, its posts are those of the page and
    are not empty, and the next page link is relative: the subreddit path of
    the request, then ["/?after="] and the escaped identifier of the last
    post, then the count and the sort method of the request if they are
    set. *)
Theorem feed_next_page_link getFeedDocument options feed :
  RedditParser_Feed getFeedDocument options = Ok feed ->
  exists opts doc init last,
    applyOptions defaultOpts options = Ok opts
    /\ getFeedDocument (constructURL opts) (Headers opts) = Ok doc
    /\ getFeedPosts doc = Ok (Posts feed)
    /\ Posts feed = init ++ [last]
    /\ NextPageLink feed
       = (match optSubreddit opts with
          | Some sr => "/r/" ++ sr
          | None => ""
          end
          ++ "/?"
          ++ String.concat "&"
               (("after=" ++ QueryEscape (ID last))
                  :: queryParams (mkOpts "" (optSubreddit opts) (optSortMethod opts)
                                         (Count opts) None (Headers opts))))%string.
Proof.
  unfold RedditParser_Feed, bind.
  destruct (applyOptions defaultOpts options) as [opts|e|k]; try discriminate.
  destruct (getFeedDocument (constructURL opts) (Headers opts)) as [doc|e|k] eqn:Ed;
    try discriminate.
  destruct (getFeedPosts doc) as [posts|e|k] eqn:Ep; try discriminate.
  destruct posts as [|x posts] using rev_ind; [discriminate |].
  rewrite nextPage_last. intros [= <-]. simpl.
  exists opts, doc, posts, x. repeat split; try assumption.
  rewrite constructURL_params. unfold urlPath, queryParams. simpl.
  destruct (optSubreddit opts); reflexivity.
Qed.

Lemma next_page_link_of_threeChildren :
  exists opts doc init last,
    applyOptions defaultOpts [WithSubreddit "foo"] = Ok opts
    /\ (fun _ _ => Ok threeChildren) (constructURL opts) (Headers opts) = Ok doc
    /\ getFeedPosts doc
       = Ok (Posts
               (mkFeed
                  [mkFeedPost "t3_abc" FeedPostTypeImage "" "" ""
                              (UnixMilli 1700000000000) 0 0 ""
                              "https://example.com/x.png" "" false false;
                   mkFeedPost "t3_def" FeedPostTypeText "" "" "" zeroTime
                              0 0 "" "/r/foo/comments/def" "" false false]
                  "/r/foo/?after=t3_def"))
    /\ Posts
         (mkFeed
            [mkFeedPost "t3_abc" FeedPostTypeImage "" "" ""
                        (UnixMilli 1700000000000) 0 0 ""
                        "https://example.com/x.png" "" false false;
             mkFeedPost "t3_def" FeedPostTypeText "" "" "" zeroTime
                        0 0 "" "/r/foo/comments/def" "" false false]
            "/r/foo/?after=t3_def")
       = init ++ [last]
    /\ NextPageLink
         (mkFeed
            [mkFeedPost "t3_abc" FeedPostTypeImage "" "" ""
                        (UnixMilli 1700000000000) 0 0 ""
                        "https://example.com/x.png" "" false false;
             mkFeedPost "t3_def" FeedPostTypeText "" "" "" zeroTime
                        0 0 "" "/r/foo/comments/def" "" false false]
            "/r/foo/?after=t3_def")
       = (match optSubreddit opts with
          | Some sr => "/r/" ++ sr
          | None => ""
          end
          ++ "/?"
          ++ String.concat "&"
               (("after=" ++ QueryEscape (ID last))
                  :: queryParams (mkOpts "" (optSubreddit opts) (optSortMethod opts)
                                         (Count opts) None (Headers opts))))%string.
Proof.
  apply (@feed_next_page_link (fun _ _ => Ok threeChildren) [WithSubreddit "foo"]).
  reflexivity.
Defined.

(* ------------------------------------------------------------------------- *)
(** * The feed options and the router *)
(* ------------------------------------------------------------------------- *)

(** ** Sort methods *)

Lemma SortMethodFromString_cases s sm :
  SortMethodFromString s = (sm, None) ->
  (sm = SortMethodHot /\ s = "hot") \/ (sm = SortMethodNew /\ s = "new")
  \/ (sm = SortMethodRising /\ s = "rising")
  \/ (sm = SortMethodControversial /\ s = "controversial")
  \/ (sm = SortMethodTop /\ s = "top") \/ (sm = SortMethodGilded /\ s = "gilded").
Proof.
  unfold SortMethodFromString.
  repeat match goal with
    | |- context [if (s =? ?lit)%string then _ else _] =>
        destruct (String.eqb_spec s lit);
        [intros [= <-]; tauto |]
    end.
  discriminate.
Qed.

Lemma named_method_range sm :
  (1 <= sm <= 6)%Z ->
  sm = SortMethodHot \/ sm = SortMethodNew \/ sm = SortMethodRising
  \/ sm = SortMethodControversial \/ sm = SortMethodTop \/ sm = SortMethodGilded.
Proof.
  unfold SortMethodHot, SortMethodNew, SortMethodRising, SortMethodControversial,
    SortMethodTop, SortMethodGilded. lia.
Qed.

(** X16: the names of the sort methods go round: a string that
    [SortMethodFromString] accepts is the [URLString] of the method it
    returns, which is one of the six named methods; each of the six is
    returned for its own [URLString]; and the default method has no name, its
    [URLString] is empty and is refused, as every other string is, with
    [SortMethod(-1)]. *)
Theorem sort_method_names_round_trip s sm :
  (snd (SortMethodFromString s) = None ->
   URLString (fst (SortMethodFromString s)) = s
   /\ (1 <= fst (SortMethodFromString s) <= 6)%Z)
  /\ (snd (SortMethodFromString s) <> None ->
      fst (SortMethodFromString s) = (-1)%Z)
  /\ ((1 <= sm <= 6)%Z -> SortMethodFromString (URLString sm) = (sm, None))
  /\ SortMethodFromString (URLString SortMethodDefault)
     = ((-1)%Z, Some "'' is not a sort method").
Proof.
  split; [| split; [| split]].
  - destruct (SortMethodFromString s) as [m [e|]] eqn:E; [discriminate |].
    intros _. simpl.
    destruct (SortMethodFromString_cases _ E)
      as [[-> ->] | [[-> ->] | [[-> ->] | [[-> ->] | [[-> ->] | [-> ->]]]]]];
      split; try reflexivity; unfold SortMethodHot, SortMethodNew,
        SortMethodRising, SortMethodControversial, SortMethodTop,
        SortMethodGilded; lia.
  - unfold SortMethodFromString.
    repeat match goal with
      | |- context [if ?b then _ else _] => destruct b; [simpl; congruence |]
      end.
    reflexivity.
  - intros H.
    destruct (named_method_range H) as [-> | [-> | [-> | [-> | [-> | ->]]]]];
      reflexivity.
  - reflexivity.
Qed.

Lemma applyOptions_app opts o1 o2 :
  applyOptions opts (o1 ++ o2) = (opts' <- applyOptions opts o1 ;; applyOptions opts' o2).
Proof.
  revert opts. induction o1 as [|o o1 IH]; intros opts; simpl; [reflexivity |].
  destruct (o opts); simpl; auto.
Qed.

(** X17: [WithSortMethod] refuses exactly the values below the default and
    above [gilded]; a value it accepts is stored and nothing else is
    touched, and, unless it is the default, has a name to write in the URL;
    with a value it refuses among its options, [Feed] returns the error
    whatever the fetching of the page would give. *)
Theorem WithSortMethod_guard sm o :
  (WithSortMethod sm o = Err ErrSortMethodNotRecognized <->
   (sm < 0)%Z \/ (6 < sm)%Z)
  /\ ((0 <= sm <= 6)%Z ->
      WithSortMethod sm o
      = Ok (mkOpts (BaseURL o) (optSubreddit o) sm (Count o) (LastPostID o)
                   (Headers o))
      /\ (sm <> SortMethodDefault -> URLString sm <> ""))
  /\ ((sm < 0)%Z \/ (6 < sm)%Z ->
      forall getFeedDocument before after,
        applyOptions defaultOpts before = Ok o ->
        RedditParser_Feed getFeedDocument (before ++ WithSortMethod sm :: after)
        = Err ErrSortMethodNotRecognized).
Proof.
  assert (Hbad : (sm < 0)%Z \/ (6 < sm)%Z ->
                 WithSortMethod sm o = Err ErrSortMethodNotRecognized).
  { intros H. unfold WithSortMethod, SortMethodDefault, SortMethodGilded.
    destruct H as [H | H].
    - apply Z.ltb_lt in H. now rewrite H.
    - apply Z.ltb_lt in H. rewrite H. now rewrite orb_true_r. }
  assert (Hok : (0 <= sm <= 6)%Z ->
                WithSortMethod sm o
                = Ok (mkOpts (BaseURL o) (optSubreddit o) sm (Count o)
                             (LastPostID o) (Headers o))).
  { intros H. unfold WithSortMethod, SortMethodDefault, SortMethodGilded.
    assert (H1 : (sm <? 0)%Z = false) by (apply Z.ltb_ge; lia).
    assert (H2 : (6 <? sm)%Z = false) by (apply Z.ltb_ge; lia).
    now rewrite H1, H2. }
  split; [| split].
  - split; [| exact Hbad]. intros E.
    destruct (Z_lt_dec sm 0) as [H | H]; [now left |].
    destruct (Z_lt_dec 6 sm) as [H' | H']; [now right |].
    rewrite Hok in E by lia. discriminate.
  - intros H. split; [now apply Hok |]. intros Hd.
    assert (H' : (1 <= sm <= 6)%Z) by (unfold SortMethodDefault in Hd; lia).
    destruct (named_method_range H') as [-> | [-> | [-> | [-> | [-> | ->]]]]];
      discriminate.
  - intros H fetch before after Hb. unfold RedditParser_Feed.
    rewrite applyOptions_app, Hb. simpl. now rewrite (Hbad H).
Qed.

(** ** The routes *)

Lemma Split_not_nil s sep : 0 < List.length (Split s sep).
Proof.
  destruct s as [|c s]; simpl; [lia |].
  destruct (Ascii.eqb c sep); simpl; [lia |].
  destruct (Split s sep); simpl; lia.
Qed.

Lemma Split_without s sep :
  (forall a b, s <> (a ++ String sep b)%string) -> Split s sep = [s].
Proof.
  induction s as [|c s IH]; intros H; [reflexivity |]. simpl.
  destruct (Ascii.eqb_spec c sep) as [-> | Hc].
  - exfalso. now apply (H "" s).
  - rewrite IH; [reflexivity |]. intros a b ->. now apply (H (String c a) b).
Qed.

Lemma Split_at a b sep :
  (forall x y, a <> (x ++ String sep y)%string) ->
  Split (a ++ String sep b) sep = a :: Split b sep.
Proof.
  induction a as [|c a IH]; intros H; simpl.
  - now rewrite Ascii.eqb_refl.
  - destruct (Ascii.eqb_spec c sep) as [-> | Hc].
    + exfalso. now apply (H "" a).
    + rewrite IH; [reflexivity |]. intros x y ->. now apply (H (String c x) y).
Qed.

(** Joining the pieces with the separator gives the string back. *)
Lemma Split_join s sep : String.concat (String sep "") (Split s sep) = s.
Proof.
  induction s as [|c s IH]; [reflexivity |]. simpl.
  destruct (Ascii.eqb_spec c sep) as [-> | Hc].
  - pose proof (Split_not_nil s sep) as Hn.
    destruct (Split s sep) as [|p ps] eqn:E; [simpl in Hn; lia |].
    cbn [String.concat]. cbn [String.concat] in IH.
    destruct ps; simpl in *; now rewrite IH.
  - pose proof (Split_not_nil s sep) as Hn.
    destruct (Split s sep) as [|p ps] eqn:E; [simpl in Hn; lia |].
    cbn [String.concat] in *. destruct ps; simpl in *; now rewrite <- IH.
Qed.

Lemma Header_Del_gone h key vs : ~ In (key, vs) (Header_Del h key).
Proof.
  unfold Header_Del. intros H. apply filter_In in H. destruct H as [_ H].
  simpl in H. now rewrite String.eqb_refl in H.
Qed.

Lemma sortNamed_range s : (0 <= sortNamed s <= 6)%Z.
Proof.
  unfold sortNamed. destruct (SortMethodFromString s) as [sm [e|]] eqn:E.
  - unfold SortMethodDefault. lia.
  - destruct (SortMethodFromString_cases _ E)
      as [[-> _] | [[-> _] | [[-> _] | [[-> _] | [[-> _] | [-> _]]]]]];
      unfold SortMethodHot, SortMethodNew, SortMethodRising,
        SortMethodControversial, SortMethodTop, SortMethodGilded; lia.
Qed.

Lemma WithSortMethod_named s sm o :
  SortMethodFromString s = (sm, None) ->
  WithSortMethod sm o
  = Ok (mkOpts (BaseURL o) (optSubreddit o) sm (Count o) (LastPostID o) (Headers o)).
Proof.
  intros E.
  destruct (SortMethodFromString_cases _ E)
    as [[-> _] | [[-> _] | [[-> _] | [[-> _] | [[-> _] | [-> _]]]]]];
    reflexivity.
Qed.

Lemma parseFeedOptions_opts r :
  applyOptions defaultOpts (parseFeedOptions r)
  = Ok (mkOpts "http://old.reddit.com"
          (if Nat.leb 3 (List.length (Split (reqPath r) "/"))
              && (nth 1 (Split (reqPath r) "/") "" =? "r")
           then Some (nth 2 (Split (reqPath r) "/") "")
           else None)
          (sortNamed (nth (List.length (Split (reqPath r) "/") - 1)
                          (Split (reqPath r) "/") ""))
          0
          (if Values_Get (reqQuery r) "after" =? "" then None
           else Some (Values_Get (reqQuery r) "after"))
          (Header_Del (reqHeader r) "Accept-Encoding")).
Proof.
  unfold parseFeedOptions, sortNamed. cbv zeta.
  pose proof (Split_not_nil (reqPath r) "/") as Hn.
  apply Nat.ltb_lt in Hn. rewrite Hn.
  destruct (Nat.leb 3 _ && _);
    destruct (SortMethodFromString _) as [sm [e|]] eqn:E;
    destruct (Values_Get (reqQuery r) "after" =? "");
    cbn [app applyOptions bind WithSubreddit WithLastPostID WithHeaders
         defaultOpts BaseURL optSubreddit optSortMethod Count LastPostID Headers];
    try rewrite (WithSortMethod_named _ _ E);
    reflexivity.
Qed.

(** X18: the options that [parseFeedOptions] reads from a request are always
    accepted. The subreddit is the third piece of the path when the second
    is ["r"]; the sort method is the one the last piece of the path names,
    the default when it names none, so it is always a recognized one; the
    last post is the [after] parameter unless it is empty; the base URL and
    the count are the defaults; and the headers are those of the request
    without [Accept-Encoding]. *)
Theorem parseFeedOptions_accepted r :
  exists opts,
    applyOptions defaultOpts (parseFeedOptions r) = Ok opts
    /\ BaseURL opts = "http://old.reddit.com"
    /\ Count opts = 0%Z
    /\ optSubreddit opts
       = (if Nat.leb 3 (List.length (Split (reqPath r) "/"))
             && (nth 1 (Split (reqPath r) "/") "" =? "r")
          then Some (nth 2 (Split (reqPath r) "/") "")
          else None)
    /\ optSortMethod opts
       = sortNamed (nth (List.length (Split (reqPath r) "/") - 1)
                        (Split (reqPath r) "/") "")
    /\ (0 <= optSortMethod opts <= 6)%Z
    /\ LastPostID opts
       = (if Values_Get (reqQuery r) "after" =? "" then None
          else Some (Values_Get (reqQuery r) "after"))
    /\ Headers opts = Header_Del (reqHeader r) "Accept-Encoding"
    /\ forall vs, ~ In ("Accept-Encoding", vs) (Headers opts).
Proof.
  eexists. split; [apply parseFeedOptions_opts |]. cbn [BaseURL Count optSubreddit
    optSortMethod LastPostID Headers].
  repeat split; try reflexivity.
  - apply sortNamed_range.
  - apply sortNamed_range.
  - intros vs. apply Header_Del_gone.
Qed.

Lemma pieces_of_subreddit sub :
  noSlash sub -> Split ("/r/" ++ sub) "/" = [""; "r"; sub].
Proof.
  intros H.
  change ("/r/" ++ sub)%string with ("" ++ String "/" ("r" ++ String "/" sub))%string.
  rewrite Split_at by (intros [|? ?] ?; discriminate).
  rewrite Split_at.
  - now rewrite (@Split_without sub "/" H).
  - intros [|c [|? ?]] y E; discriminate.
Qed.

Lemma pieces_of_subreddit_segment sub seg :
  noSlash sub -> noSlash seg ->
  Split ("/r/" ++ sub ++ "/" ++ seg) "/" = [""; "r"; sub; seg].
Proof.
  intros Hs Hg.
  change ("/r/" ++ sub ++ "/" ++ seg)%string
    with ("" ++ String "/" ("r" ++ String "/" (sub ++ String "/" seg)))%string.
  rewrite Split_at by (intros [|? ?] ?; discriminate).
  rewrite Split_at.
  - now rewrite (@Split_at sub seg "/" Hs), (@Split_without seg "/" Hg).
  - intros [|c [|? ?]] y E; discriminate.
Qed.

(** X19: the route [/r/<subreddit>/<segment>] gives the subreddit and the
    sort method the segment names; the route [/r/<subreddit>] gives the
    subreddit and, the subreddit being the last piece of the path too, the
    sort method the name of the subreddit names: a subreddit called [top] or
    [new] is read as sorted that way. *)
Theorem subreddit_routes sub seg query header :
  noSlash sub ->
  noSlash seg ->
  (exists opts,
      applyOptions defaultOpts
        (parseFeedOptions (mkRequest ("/r/" ++ sub ++ "/" ++ seg) query header))
      = Ok opts
      /\ optSubreddit opts = Some sub /\ optSortMethod opts = sortNamed seg)
  /\ (exists opts,
         applyOptions defaultOpts
           (parseFeedOptions (mkRequest ("/r/" ++ sub) query header))
         = Ok opts
         /\ optSubreddit opts = Some sub /\ optSortMethod opts = sortNamed sub).
Proof.
  intros Hs Hg. split; eexists; (split; [apply parseFeedOptions_opts |]);
    cbn [reqPath optSubreddit optSortMethod].
  - rewrite (pieces_of_subreddit_segment Hs Hg). split; reflexivity.
  - rewrite (pieces_of_subreddit Hs). split; reflexivity.
Qed.

Lemma noSlash_top : noSlash "top".
Proof.
  intros a b E.
  destruct a as [|c1 [|c2 [|c3 [|c4 a]]]]; simpl in E; try discriminate;
    injection E; intros; discriminate.
Qed.

Lemma route_of_subreddit_top :
  (exists opts,
      applyOptions defaultOpts
        (parseFeedOptions (mkRequest ("/r/" ++ "top" ++ "/" ++ "top") [] []))
      = Ok opts
      /\ optSubreddit opts = Some "top" /\ optSortMethod opts = sortNamed "top")
  /\ (exists opts,
         applyOptions defaultOpts
           (parseFeedOptions (mkRequest ("/r/" ++ "top") [] []))
         = Ok opts
         /\ optSubreddit opts = Some "top"
         /\ optSortMethod opts = sortNamed "top").
Proof.
  apply (@subreddit_routes "top" "top" [] []); apply noSlash_top.
Defined.

(* ------------------------------------------------------------------------- *)
(** * The template helpers and the names of the types *)
(* ------------------------------------------------------------------------- *)

Ltac count_seconds now timestamp seconds :=
  unfold formatTimeSincePost, SecondsPerYear, SecondsPerMonth, SecondsPerDay,
    SecondsPerHour, SecondsPerMinute; cbv zeta;
  fold (countedSeconds now timestamp);
  change (365 * (24 * (60 * 60)))%Z with 31536000%Z;
  change (30 * (24 * (60 * 60)))%Z with 2592000%Z;
  change (24 * (60 * 60))%Z with 86400%Z;
  change (60 * 60)%Z with 3600%Z;
  generalize dependent (countedSeconds now timestamp); intros seconds.

(** X20: when the seconds counted are fewer than 60, the text never shows
    them: it is the number of whole minutes, with the unit [seconds]; that
    is [0 seconds] from 0 to 59 seconds, and for a timestamp a minute or more
    after the clock a negative number of minutes called seconds. *)
Theorem under_a_minute now timestamp :
  (countedSeconds now timestamp < 60)%Z ->
  formatTimeSincePost now timestamp
  = (sprintd (Z.quot (countedSeconds now timestamp) 60) ++ " seconds")%string
  /\ ((0 <= countedSeconds now timestamp)%Z ->
      formatTimeSincePost now timestamp = "0 seconds").
Proof.
  count_seconds now timestamp seconds. intros H.
  assert (Q : forall c, (60 <= c)%Z -> (1 <=? Z.quot seconds c)%Z = false).
  { intros c Hc. apply Z.leb_gt.
    destruct (Z_lt_dec seconds 0) as [Hn | Hn].
    - pose proof (Z.quot_opp_l (- seconds) c ltac:(lia)) as Ho.
      rewrite Z.opp_involutive in Ho.
      pose proof (Z.quot_pos (- seconds) c ltac:(lia) ltac:(lia)). lia.
    - rewrite Z.quot_small; lia. }
  rewrite !Q by lia. unfold sprintInterval, pluralize.
  assert (Q1 : (Z.quot seconds 60 =? 1)%Z = false).
  { apply Z.eqb_neq. specialize (Q 60%Z ltac:(lia)). apply Z.leb_gt in Q. lia. }
  rewrite Q1. split; [reflexivity |].
  intros H0. rewrite Z.quot_small by lia. reflexivity.
Qed.

(** A post of 40.25 seconds ago. *)
Lemma forty_seconds_ago :
  formatTimeSincePost 1700000040250000000 (UnixMilli 1700000000000)
  = (sprintd (Z.quot (countedSeconds 1700000040250000000 (UnixMilli 1700000000000))
                     60) ++ " seconds")%string
  /\ ((0 <= countedSeconds 1700000040250000000 (UnixMilli 1700000000000))%Z ->
      formatTimeSincePost 1700000040250000000 (UnixMilli 1700000000000)
      = "0 seconds").
Proof. apply under_a_minute. vm_compute. reflexivity. Defined.



Lemma Time_Sub_range t u :
  ((maxDuration <= t - u)%Z -> Time_Sub t u = maxDuration)
  /\ ((t - u <= minDuration)%Z -> Time_Sub t u = minDuration)
  /\ ((minDuration <= t - u <= maxDuration)%Z -> Time_Sub t u = (t - u)%Z).
Proof.
  unfold Time_Sub. cbv zeta.
  assert (Hlt : (minDuration < maxDuration)%Z) by (vm_compute; reflexivity).
  destruct (Z.ltb_spec (t - u) minDuration), (Z.ltb_spec maxDuration (t - u));
    repeat split; intros; try reflexivity; lia.
Qed.

(** X25: the seconds counted are not always the age of the post: past the
    range of a [Duration], a little over 292 years either way, the count
    stays where it is.  A timestamp that far before the clock is shown as
    [292 years], and so is every post without a timestamp that parses, whose
    timestamp is the zero time, whenever the clock is not before 1970; a
    timestamp that far after the clock is shown as [-153722867 seconds]. *)
Theorem age_beyond_duration now timestamp :
  ((maxDuration <= now - UnixNano timestamp)%Z ->
   countedSeconds now timestamp = 9223372036%Z
   /\ formatTimeSincePost now timestamp = "292 years")
  /\ ((now - UnixNano timestamp <= minDuration)%Z ->
      countedSeconds now timestamp = (-9223372036)%Z
      /\ formatTimeSincePost now timestamp = "-153722867 seconds")
  /\ ((0 <= now)%Z -> formatTimeSincePost now zeroTime = "292 years").
Proof.
  assert (Hmax : forall n t, (maxDuration <= n - UnixNano t)%Z ->
                 countedSeconds n t = 9223372036%Z
                 /\ formatTimeSincePost n t = "292 years").
  { intros n t H. unfold formatTimeSincePost, countedSeconds.
    rewrite (proj1 (Time_Sub_range n (UnixNano t)) H).
    split; vm_compute; reflexivity. }
  split; [apply Hmax | split].
  - intros H. unfold formatTimeSincePost, countedSeconds.
    rewrite (proj1 (proj2 (Time_Sub_range now (UnixNano timestamp))) H).
    split; vm_compute; reflexivity.
  - intros H. apply Hmax. unfold UnixNano, zeroTime, maxDuration.
    assert (E : (2 ^ 63 - 1 = 9223372036854775807)%Z) by reflexivity. lia.
Qed.

Lemma FeedPostType_String_injective t1 t2 :
  FeedPostType_String t1 = FeedPostType_String t2 -> t1 = t2.
Proof. destruct t1, t2; simpl; congruence. Qed.

(** X22: the five types have five different names; [UnmarshalJSON] returns a
    type only for a text that denotes its name; and it gives back the type
    that [MarshalJSON] wrote, whenever the JSON decoder reads the name
    between quotes as the name. *)
Theorem feed_post_type_json_round_trip decode t :
  decode (MarshalJSON t) = Some (FeedPostType_String t) ->
  UnmarshalJSON decode (MarshalJSON t) = Value t
  /\ (forall t', FeedPostType_String t' = FeedPostType_String t -> t' = t)
  /\ (forall data t',
        UnmarshalJSON decode data = Value t' ->
        decode data = Some (FeedPostType_String t')).
Proof.
  intros H. split; [| split].
  - unfold UnmarshalJSON. rewrite H. now destruct t.
  - intros t'. apply FeedPostType_String_injective.
  - intros data t'. unfold UnmarshalJSON.
    destruct (decode data) as [s|]; [| discriminate].
    repeat match goal with
      | |- context [if (s =? ?lit)%string then _ else _] =>
          destruct (String.eqb_spec s lit); [intros [= <-]; now subst |]
      end.
    discriminate.
Qed.

Lemma gallery_round_trip :
  UnmarshalJSON unquote (MarshalJSON FeedPostTypeGallery) = Value FeedPostTypeGallery
  /\ (forall t',
        FeedPostType_String t' = FeedPostType_String FeedPostTypeGallery ->
        t' = FeedPostTypeGallery)
  /\ (forall data t',
        UnmarshalJSON unquote data = Value t' ->
        unquote data = Some (FeedPostType_String t')).
Proof.
  apply (@feed_post_type_json_round_trip unquote FeedPostTypeGallery).
  reflexivity.
Defined.

(* ------------------------------------------------------------------------- *)
(** * No node is visited twice *)
(* ------------------------------------------------------------------------- *)

Lemma bfs_takes_one criteria recurseIf W :
  TakesOne criteria recurseIf (bfs_loop criteria recurseIf) W.
Proof.
  destruct W as [|n rest]; [left | right].
  - split; [reflexivity | apply bfs_loop_nil].
  - exists n, rest. split; [apply Permutation_refl | apply bfs_loop_cons].
Qed.

Lemma dfs_takes_one criteria recurseIf W :
  TakesOne criteria recurseIf (dfs_loop criteria recurseIf) W.
Proof.
  destruct (pop_back W) as [[rest n]|] eqn:E; [right | left].
  - apply pop_back_Some in E. subst W. exists n, rest. split.
    + apply Permutation_sym, Permutation_cons_append.
    + apply dfs_loop_snoc.
  - apply pop_back_None in E. subst W.
    split; [reflexivity | apply dfs_loop_nil].
Qed.

Lemma kidsFrom_path q j cs k :
  In k (kidsFrom q j cs) -> exists i, j <= i /\ path k = q ++ [i].
Proof.
  intros H. apply In_kidsFrom in H. destruct H as [i [c [_ ->]]].
  exists (j + i). split; [lia | reflexivity].
Qed.

Lemma NoDup_kidsFrom q j cs : NoDup (map path (kidsFrom q j cs)).
Proof.
  revert j. induction cs as [|c cs IH]; intros j; simpl; constructor.
  - intros H. apply in_map_iff in H. destruct H as [k [Hp Hk]].
    apply kidsFrom_path in Hk. destruct Hk as [i [Hi Hk]].
    rewrite Hk in Hp. apply app_inv_head in Hp. injection Hp as Hp. lia.
  - apply IH.
Qed.

Lemma NoDup_next recurseIf n : NoDup (map path (next recurseIf n)).
Proof.
  unfold next, kids. destruct (expands recurseIf (node n)).
  - apply NoDup_kidsFrom.
  - constructor.
Qed.

Lemma next_path recurseIf n k :
  In k (next recurseIf n) -> exists i, path k = path n ++ [i].
Proof.
  intros H. apply In_next in H. destruct H as [_ H]. apply In_kids in H.
  destruct H as [i [c [_ ->]]]. now exists i.
Qed.

Lemma longer_path (p s : list nat) : p = p ++ s -> s = [].
Proof.
  intros H. apply (f_equal (@List.length nat)) in H.
  rewrite length_app in H. destruct s; [reflexivity | simpl in H; lia].
Qed.

Lemma weight_perm W W' : Permutation W W' -> weight W = weight W'.
Proof.
  intros HP. induction HP; simpl in *; lia.
Qed.

Lemma separate_perm W W' : Permutation W W' -> separate W -> separate W'.
Proof.
  intros HP [Hn Ha]. split.
  - eapply Permutation_NoDup; [| exact Hn]. now apply Permutation_map.
  - intros x y s Hx Hy. apply Permutation_sym in HP.
    apply Ha; eapply Permutation_in; eassumption.
Qed.

(** A turn keeps the pending nodes separate. *)
Lemma separate_step recurseIf n rest :
  separate (n :: rest) -> separate (rest ++ next recurseIf n).
Proof.
  intros [Hn Ha]. simpl in Hn. inversion Hn as [|? ? Hnot Hrest]; subst.
  assert (Hkid : forall k r s, In k (next recurseIf n) -> In r rest ->
                               path k = path r ++ s -> False).
  { intros k r s Hk Hr E. apply next_path in Hk. destruct Hk as [i Hk].
    rewrite Hk in E. destruct s as [|x s'] using rev_ind.
    - rewrite app_nil_r in E.
      assert (H : [i] = []) by
        (apply (Ha n r [i]); [now left | now right | now symmetry]).
      discriminate.
    - clear IHs'. rewrite app_assoc in E. apply app_inj_tail in E.
      destruct E as [E _].
      assert (H : s' = []) by (apply (Ha r n s'); [now right | now left | exact E]).
      subst s'. rewrite app_nil_r in E. apply Hnot. rewrite E.
      now apply in_map. }
  split.
  - rewrite map_app. apply NoDup_app; [exact Hrest | apply NoDup_next |].
    intros p Hp Hq. apply in_map_iff in Hp. destruct Hp as [r [<- Hr]].
    apply in_map_iff in Hq. destruct Hq as [k [E Hk]].
    apply (Hkid k r [] Hk Hr). now rewrite app_nil_r.
  - intros x y s Hx Hy E. apply in_app_iff in Hx. apply in_app_iff in Hy.
    destruct Hx as [Hx | Hx], Hy as [Hy | Hy].
    + apply (Ha x y s); [now right | now right | exact E].
    + exfalso. exact (Hkid y x s Hy Hx E).
    + apply next_path in Hx. destruct Hx as [i Hx]. rewrite Hx, <- app_assoc in E.
      assert (H : [i] ++ s = []) by (apply (Ha n y); [now left | now right | exact E]).
      discriminate.
    + apply next_path in Hx. destruct Hx as [i Hx].
      apply next_path in Hy. destruct Hy as [j Hy].
      rewrite Hx, Hy in E. apply (f_equal (@List.length nat)) in E.
      rewrite !length_app in E. simpl in E.
      destruct s; [reflexivity | simpl in E; lia].
Qed.

Section Once.

Variables criteria recurseIf : SearchCriteria.
Variable loop : list Ptr -> Run.
Hypothesis loop_turns : WorklistLoop criteria recurseIf loop.
Hypothesis loop_takes : forall W, TakesOne criteria recurseIf loop W.

(** From separate pending nodes, a loop pops nodes at different places. *)
Lemma popped_once W : separate W -> NoDup (map path (fst (loop W))).
Proof.
  induction W as [W IH] using worklist_ind. intros HS.
  destruct (loop_takes W) as [[-> E] | [n [rest [HP E]]]].
  - rewrite E. constructor.
  - rewrite E. destruct (criteria (node n)); simpl.
    + constructor; [intros [] | constructor].
    + pose proof (separate_perm HP HS) as HS'.
      assert (Hw : weight W = size (node n) + weight rest)
        by exact (weight_perm HP).
      constructor.
      * intros H. apply in_map_iff in H. destruct H as [p [Ep Hp]].
        apply (popped_Visit loop_turns) in Hp. destruct Hp as [w [Hin Hv]].
        destruct (Visit_path Hv) as [s [Hs _]]. rewrite Ep in Hs.
        destruct HS' as [Hn Ha]. apply in_app_iff in Hin.
        destruct Hin as [Hr | Hk].
        -- assert (H : s = []) by (apply (Ha w n s); [now right | now left | exact Hs]).
           subst s. rewrite app_nil_r in Hs. simpl in Hn.
           inversion Hn as [|? ? Hnot _]; subst. apply Hnot. rewrite Hs.
           now apply in_map.
        -- apply next_path in Hk. destruct Hk as [i Hk].
           rewrite Hk, <- app_assoc in Hs. apply longer_path in Hs. discriminate.
      * apply IH; [rewrite Hw; apply turn_decreases | now apply separate_step].
Qed.

End Once.

Lemma separate_root root : separate [rootPtr root].
Proof.
  split.
  - simpl. constructor; [intros [] | constructor].
  - intros x y s [<- | []] [<- | []] E. now apply longer_path in E.
Qed.

(** X23: neither search visits a node twice: the nodes a search has popped
    are at different places of the tree. *)
Theorem no_node_visited_twice root criteria recurseIf :
  NoDup (map path (bfsVisited root criteria recurseIf))
  /\ NoDup (map path (dfsVisited root criteria recurseIf)).
Proof.
  unfold bfsVisited, dfsVisited. split.
  - apply (popped_once (bfs_worklist criteria recurseIf)
                       (bfs_takes_one criteria recurseIf)).
    apply separate_root.
  - apply (popped_once (dfs_worklist criteria recurseIf)
                       (dfs_takes_one criteria recurseIf)).
    apply separate_root.
Qed.

(* ------------------------------------------------------------------------- *)
(** * The class patterns of the parser *)
(* ------------------------------------------------------------------------- *)

Lemma class_pattern_criteria atom pattern lit n :
  (forall s, MatchString pattern s = true <-> contains s lit) ->
  And [IsTag atom; HasAttributeWithValueRegex "class" pattern] n = true
  <-> classContains atom lit n.
Proof.
  intros HP. unfold And, classContains, HasAttributeWithValueRegex. simpl.
  rewrite andb_true_r, andb_true_iff, existsb_exists. split.
  - intros [Ht [a [Hin Ha]]]. apply andb_true_iff in Ha. destruct Ha as [Hk Hm].
    split; [exact Ht |]. exists a. split; [exact Hin |].
    split; [now apply String.eqb_eq | now apply HP].
  - intros [Ht [a [Hin [Hk Hc]]]]. split; [exact Ht |]. exists a.
    split; [exact Hin |]. apply andb_true_iff.
    split; [now apply String.eqb_eq | now apply HP].
Qed.

(** X24: the patterns of the parser are not anchored: the title, thumbnail
    and comments criteria accept exactly the anchors that have a [class]
    attribute in which [title], [thumbnail] or [comments] occurs, at the
    start or further on. *)
Theorem class_patterns_unanchored n :
  (titleCriteria n = true <-> classContains AtomA "title" n)
  /\ (thumbnailCriteria n = true <-> classContains AtomA "thumbnail" n)
  /\ (commentsCriteria n = true <-> classContains AtomA "comments" n).
Proof.
  unfold titleCriteria, thumbnailCriteria, commentsCriteria.
  split; [| split]; apply class_pattern_criteria.
  - apply title_pattern.
  - apply thumbnail_pattern.
  - apply comments_pattern.
Qed.
